(** * Verification of the landing-page ticker widget and its visual QC suite

    Shallow embedding of
      - [js/trending-ticker.js]   (the ticker with visibility gating and clamping),
      - the older ticker script   (no observer, no clamping; module [Legacy]),
      - [visual-qc.spec.js] and its sibling copy with the layout helpers
        (navigation walk, responsive matrix, report writer; module [QC]).

    JavaScript Numbers that carry pixels and milliseconds are modelled as exact
    rationals ([Q]); every test the scripts make on them is a comparison and
    every clamp an assignment of a bound, which are exact in binary64 as well.
    The one place where binary64 rounding decides an output, the quotient in
    [formatNumber], is modelled with a correctly rounded division. *)

From Stdlib Require Import ZArith QArith Qround Qabs Qpower Lia Lqa Bool List String Ascii.
From Stdlib Require Import Sorted Permutation DecimalString DecimalN DecimalPos.
From stdpp Require Import gmap strings.
Import ListNotations.

Local Open Scope Z_scope.

(** ** JavaScript Numbers and the built-ins the scripts call *)

Module JS.

(** [Number.prototype.toString] on a non-negative integer below 10^21:
    its decimal digits. *)
Definition decimal (n : Z) : string :=
  NilZero.string_of_uint (N.to_uint (Z.to_N n)).

Definition pow2 (e : Z) : Q := Qpower 2 e.

(** Round to nearest integer, ties to even: the rounding of binary64. *)
Definition rne (y : Q) : Z :=
  let f := Qfloor y in
  match Qcompare (y - inject_Z f) (1 # 2) with
  | Lt => f
  | Gt => f + 1
  | Eq => if Z.even f then f else f + 1
  end.

(** The binary64 value nearest to a positive rational [x] in the normal
    range: a 53-bit significand [m] and an exponent [e], value [m * 2^e]. *)
Definition exponent (x : Q) : Z :=
  let e0 := Z.log2 (Qnum x) - Z.log2 (Zpos (Qden x)) - 53 in
  if Qle_bool (pow2 53) (x / pow2 e0) then e0 + 1 else e0.

Definition significand (x : Q) : Z := rne (x / pow2 (exponent x)).

Definition b64 (x : Q) : Q :=
  match Qnum x with
  | Zpos _ => inject_Z (significand x) * pow2 (exponent x)
  | Z0 => 0
  | Zneg _ => - (inject_Z (significand (- x)) * pow2 (exponent (- x)))
  end.

(** The [/] operator on two Numbers. *)
Definition div (a b : Q) : Q := b64 (a / b).

(** [Number.prototype.toFixed(1)] on [0 <= x < 10^21]: the integer [k] for
    which [k / 10 - x] is as close to zero as possible, the larger one when
    there are two, printed with one digit after the point. *)
Definition toFixed1 (x : Q) : string :=
  let k := Qfloor (x * 10 + (1 # 2)) in
  (decimal (k / 10) ++ "." ++ decimal (k mod 10))%string.

(** [Array.prototype.sort(cmp)]: stable (ECMAScript 2019), and for a
    consistent comparator the stable result is unique; insertion from the
    right computes it.  [cmp a b > 0] means [a] goes after [b]. *)
Section Sort.
Context {A : Type} (cmp : A -> A -> Q).

Fixpoint insert (x : A) (l : list A) : list A :=
  match l with
  | [] => [x]
  | y :: l' => if Qlt_le_dec 0 (cmp x y) then y :: insert x l' else x :: l
  end.

Definition sort (l : list A) : list A := fold_right insert [] l.
End Sort.

(** [String.prototype.includes]. *)
Fixpoint includes (s sub : string) : bool :=
  String.prefix sub s
  || match s with
     | EmptyString => false
     | String _ s' => includes s' sub
     end.

(** The properties every object literal inherits from [Object.prototype];
    a lookup [obj[key]] finds them when [obj] has no own property [key]. *)
Definition objectPrototype : list string :=
  [ "constructor"; "hasOwnProperty"; "isPrototypeOf"; "propertyIsEnumerable";
    "toLocaleString"; "toString"; "valueOf"; "__proto__"; "__defineGetter__";
    "__defineSetter__"; "__lookupGetter__"; "__lookupSetter__" ]%string.

(** [String.prototype.endsWith]. *)
Definition endsWith (s suffix : string) : bool :=
  let n := String.length s in
  let k := String.length suffix in
  (k <=? n)%nat && String.eqb (String.substring (n - k) k s) suffix.

End JS.

(** ** Fixture records and the functions shared by both ticker scripts *)

Record Repo := mkRepo {
  name : string;
  url : string;
  stars_today : Z;
  language : string;
  trending_score : Q
}.

(** [formatNumber]: identical in both scripts. *)
Definition formatNumber (num : Z) : string :=
  if 1000 <=? num
  then (JS.toFixed1 (JS.div (inject_Z num) 1000) ++ "k")%string
  else JS.decimal num.

(** The comparator passed to [data.sort]. *)
Definition by_score_desc (a b : Repo) : Q := trending_score b - trending_score a.

Definition sortRepos (data : list Repo) : list Repo := JS.sort by_score_desc data.

(** What [getLangColor] returns: a colour string, or the inherited member
    of the colour table that the lookup found instead. *)
Inductive Color :=
| Css (value : string)
| Inherited (member : string).

(** *** Vocabulary of the statements about the shared functions *)

(** Descending order of two neighbouring cards. *)
Definition desc (a b : Repo) : Prop := (trending_score b <= trending_score a)%Q.


(** Reading a decimal numeral back. *)
Definition parse_decimal (s : string) : option Z :=
  option_map (fun u => Z.of_N (N.of_uint u)) (NilZero.uint_of_string s).

(** [k] tenths is [x] rounded to one decimal place: no tenth is nearer. *)
Definition rounds_to_tenths (x : Q) (k : Z) : Prop :=
  (Qabs (inject_Z k / 10 - x) <= 1 # 20)%Q.

(** [k] tenths printed with one digit after the point. *)
Definition one_decimal (k : Z) : string :=
  (JS.decimal (k / 10) ++ "." ++ JS.decimal (k mod 10))%string.

(** The label as the specification words it: [n / 1000] rounded to one
    decimal place, a half going upwards as in ordinary rounding. *)
Definition rounded_label (n : Z) : string :=
  if 1000 <=? n then (one_decimal ((n + 50) / 100) ++ "k")%string else JS.decimal n.

(** An integer that a Number holds exactly. *)
Definition holds_exactly (n : Z) : Prop := (JS.b64 (inject_Z n) == inject_Z n)%Q.

(** The statements of the specification about the label, word for word:
    with ordinary rounding, and with any rule for the halves. *)
Definition label_is_rounded : Prop :=
  forall n, 0 <= n -> formatNumber n = rounded_label n.

Definition label_is_nearest : Prop :=
  forall n, 1000 <= n -> holds_exactly n ->
    exists k, rounds_to_tenths (inject_Z n / 1000) k
              /\ formatNumber n = (one_decimal k ++ "k")%string.

Definition demo_repo : Repo :=
  mkRepo "octo/demo" "https://github.com/octo/demo" 1234 "Go" 10.

(** What the layout engine reports while the loop runs: [scrollWidth] of the
    ticker element and [offsetWidth] of its parent container. *)
Record Layout := mkLayout { scrollWidth : Q; offsetWidth : Q }.

(** The settled [fetch(TICKER_DATA_URL)] as the promise chain sees it. *)
Inductive JsonValue :=
| JArray (data : list Repo)
| JOther.                       (* an object, number, string or null *)

Inductive Body :=
| NotJson
| Json (v : JsonValue).

Inductive FetchResult :=
| NetworkError
| Response (ok : bool) (body : Body).

(** ** js/trending-ticker.js *)

Module Ticker.

Local Open Scope Q_scope.

Definition TICKER_SPEED : Q := 50.
Definition TICKER_PAUSE : Q := 2000.

Record TickerItem := mkItem {
  href : string;
  item_name : string;
  stars_aria : Z;
  stars_text : string;
  lang_color : Color;
  lang_text : string
}.

(** [tickerElement.innerHTML]. *)
Inductive Markup :=
| Untouched
| Items (items : list TickerItem)
| ErrorNotice.

(** The script's variables, then the page and the browser's queues:
    [frames] holds the handles of the pending [animate] callbacks, [timers]
    the deadlines of the pending dwell time-outs, [clock] is
    [performance.now()], [issued] counts the calls of
    [requestAnimationFrame]. *)
Record World := mkWorld {
  repos : list Repo;
  tickerElement : bool;
  animationId : option nat;
  isPaused : bool;
  isVisible : bool;
  direction : Q;
  currentPosition : Q;
  lastTime : Q;
  innerHTML : Markup;
  transform : option Q;
  frames : list nat;
  issued : nat;
  timers : list Q;
  fetching : bool;
  observing : bool;
  clock : Q;
  console : list string
}.

Definition set_repos v (w : World) : World :=
  mkWorld v (tickerElement w) (animationId w) (isPaused w) (isVisible w) (direction w)
    (currentPosition w) (lastTime w) (innerHTML w) (transform w) (frames w) (issued w)
    (timers w) (fetching w) (observing w) (clock w) (console w).
Definition set_animationId v (w : World) : World :=
  mkWorld (repos w) (tickerElement w) v (isPaused w) (isVisible w) (direction w)
    (currentPosition w) (lastTime w) (innerHTML w) (transform w) (frames w) (issued w)
    (timers w) (fetching w) (observing w) (clock w) (console w).
Definition set_isPaused v (w : World) : World :=
  mkWorld (repos w) (tickerElement w) (animationId w) v (isVisible w) (direction w)
    (currentPosition w) (lastTime w) (innerHTML w) (transform w) (frames w) (issued w)
    (timers w) (fetching w) (observing w) (clock w) (console w).
Definition set_isVisible v (w : World) : World :=
  mkWorld (repos w) (tickerElement w) (animationId w) (isPaused w) v (direction w)
    (currentPosition w) (lastTime w) (innerHTML w) (transform w) (frames w) (issued w)
    (timers w) (fetching w) (observing w) (clock w) (console w).
Definition set_direction v (w : World) : World :=
  mkWorld (repos w) (tickerElement w) (animationId w) (isPaused w) (isVisible w) v
    (currentPosition w) (lastTime w) (innerHTML w) (transform w) (frames w) (issued w)
    (timers w) (fetching w) (observing w) (clock w) (console w).
Definition set_currentPosition v (w : World) : World :=
  mkWorld (repos w) (tickerElement w) (animationId w) (isPaused w) (isVisible w) (direction w)
    v (lastTime w) (innerHTML w) (transform w) (frames w) (issued w)
    (timers w) (fetching w) (observing w) (clock w) (console w).
Definition set_lastTime v (w : World) : World :=
  mkWorld (repos w) (tickerElement w) (animationId w) (isPaused w) (isVisible w) (direction w)
    (currentPosition w) v (innerHTML w) (transform w) (frames w) (issued w)
    (timers w) (fetching w) (observing w) (clock w) (console w).
Definition set_innerHTML v (w : World) : World :=
  mkWorld (repos w) (tickerElement w) (animationId w) (isPaused w) (isVisible w) (direction w)
    (currentPosition w) (lastTime w) v (transform w) (frames w) (issued w)
    (timers w) (fetching w) (observing w) (clock w) (console w).
Definition set_transform v (w : World) : World :=
  mkWorld (repos w) (tickerElement w) (animationId w) (isPaused w) (isVisible w) (direction w)
    (currentPosition w) (lastTime w) (innerHTML w) v (frames w) (issued w)
    (timers w) (fetching w) (observing w) (clock w) (console w).
Definition set_frames v (w : World) : World :=
  mkWorld (repos w) (tickerElement w) (animationId w) (isPaused w) (isVisible w) (direction w)
    (currentPosition w) (lastTime w) (innerHTML w) (transform w) v (issued w)
    (timers w) (fetching w) (observing w) (clock w) (console w).
Definition set_issued v (w : World) : World :=
  mkWorld (repos w) (tickerElement w) (animationId w) (isPaused w) (isVisible w) (direction w)
    (currentPosition w) (lastTime w) (innerHTML w) (transform w) (frames w) v
    (timers w) (fetching w) (observing w) (clock w) (console w).
Definition set_timers v (w : World) : World :=
  mkWorld (repos w) (tickerElement w) (animationId w) (isPaused w) (isVisible w) (direction w)
    (currentPosition w) (lastTime w) (innerHTML w) (transform w) (frames w) (issued w)
    v (fetching w) (observing w) (clock w) (console w).
Definition set_fetching v (w : World) : World :=
  mkWorld (repos w) (tickerElement w) (animationId w) (isPaused w) (isVisible w) (direction w)
    (currentPosition w) (lastTime w) (innerHTML w) (transform w) (frames w) (issued w)
    (timers w) v (observing w) (clock w) (console w).
Definition set_clock v (w : World) : World :=
  mkWorld (repos w) (tickerElement w) (animationId w) (isPaused w) (isVisible w) (direction w)
    (currentPosition w) (lastTime w) (innerHTML w) (transform w) (frames w) (issued w)
    (timers w) (fetching w) (observing w) v (console w).
Definition set_tickerElement v (w : World) : World :=
  mkWorld (repos w) v (animationId w) (isPaused w) (isVisible w) (direction w)
    (currentPosition w) (lastTime w) (innerHTML w) (transform w) (frames w) (issued w)
    (timers w) (fetching w) (observing w) (clock w) (console w).
Definition set_observing v (w : World) : World :=
  mkWorld (repos w) (tickerElement w) (animationId w) (isPaused w) (isVisible w) (direction w)
    (currentPosition w) (lastTime w) (innerHTML w) (transform w) (frames w) (issued w)
    (timers w) (fetching w) v (clock w) (console w).
Definition set_console v (w : World) : World :=
  mkWorld (repos w) (tickerElement w) (animationId w) (isPaused w) (isVisible w) (direction w)
    (currentPosition w) (lastTime w) (innerHTML w) (transform w) (frames w) (issued w)
    (timers w) (fetching w) (observing w) (clock w) v.

(** The script's variables as declared, on a page nothing has touched. *)
Definition boot : World :=
  mkWorld [] false None false true (-1) 0 0 Untouched None [] O [] false false 0 [].

(** [requestAnimationFrame(animate)]: a fresh non-zero handle, queued. *)
Definition requestAnimationFrame (w : World) : World * nat :=
  let h := S (issued w) in
  (set_issued h (set_frames (frames w ++ [h]) w), h).

(** [setTimeout(() => { isPaused = false; }, delay)]. *)
Definition setTimeout (delay : Q) (w : World) : World :=
  set_timers (timers w ++ [clock w + delay]) w.

Definition pauseTicker (w : World) : World :=
  setTimeout TICKER_PAUSE (set_isPaused true w).

Definition colors : gmap string string :=
  list_to_map
    [("JavaScript", "#f1e05a"); ("TypeScript", "#3572A5"); ("Python", "#3572A5");
     ("Go", "#00ADD8"); ("Rust", "#dea584"); ("Java", "#b07219"); ("C++", "#f34b7d");
     ("Ruby", "#701516"); ("PHP", "#4F5D95"); ("Shell", "#89e051")]%string.

(** [colors[lang] || '#8b8b8b']: every own and inherited value is truthy. *)
Definition getLangColor (lang : string) : Color :=
  if String.eqb lang "TypeScript" then Css "#3178c6"
  else
    match colors !! lang with
    | Some c => Css c
    | None =>
        if existsb (String.eqb lang) JS.objectPrototype then Inherited lang
        else Css "#8b8b8b"
    end.

Definition ticker_item (repo : Repo) : TickerItem :=
  mkItem (url repo) (name repo) (stars_today repo) (formatNumber (stars_today repo))
    (getLangColor (language repo)) (language repo).

Definition renderTicker (w : World) : World :=
  match repos w with
  | [] => w
  | _ :: _ =>
      let html := List.map ticker_item (repos w) in
      set_transform (Some 0) (set_innerHTML (Items (html ++ html)) w)
  end.

Definition startAnimation (w : World) : World :=
  let w := set_lastTime (clock w) w in
  let (w, h) := requestAnimationFrame w in
  set_animationId (Some h) w.

Definition lowerBound (lay : Layout) : Q :=
  - (scrollWidth lay / 2 - offsetWidth lay).

Definition animate (lay : Layout) (currentTime : Q) (w : World) : World :=
  if negb (tickerElement w) || negb (isVisible w) then set_animationId None w
  else
    let w :=
      if negb (isPaused w) then
        let deltaTime := (currentTime - lastTime w) / 1000 in
        let w := set_lastTime currentTime w in
        let contentWidth := scrollWidth lay / 2 in
        let w :=
          set_currentPosition
            (currentPosition w + TICKER_SPEED * direction w * deltaTime) w in
        let w :=
          if Qle_bool 0 (currentPosition w) then
            pauseTicker (set_direction (-1) (set_currentPosition 0 w))
          else if Qle_bool (currentPosition w) (- (contentWidth - offsetWidth lay)) then
            pauseTicker
              (set_direction 1
                 (set_currentPosition (- (contentWidth - offsetWidth lay)) w))
          else w in
        set_transform (Some (currentPosition w)) w
      else set_lastTime currentTime w in
    let (w, h) := requestAnimationFrame w in
    set_animationId (Some h) w.

(** The callback given to [IntersectionObserver]. *)
Definition observerCallback (isIntersecting : bool) (w : World) : World :=
  let w := set_isVisible isIntersecting w in
  if isVisible w && match animationId w with None => true | Some _ => false end then
    let w := set_lastTime (clock w) w in
    let (w, h) := requestAnimationFrame w in
    set_animationId (Some h) w
  else w.

(** The two handlers of the promise chain: [.then(data => ...)] and
    [.catch(err => ...)]. *)
Definition onData (data : list Repo) (w : World) : World :=
  let w := set_repos (sortRepos data) w in
  let w := renderTicker w in
  startAnimation w.

Definition onError (err : string) (w : World) : World :=
  let w := set_console (console w ++ [("Ticker error: " ++ err)%string]) w in
  set_innerHTML ErrorNotice w.

(** The chain on a settled fetch.  A rejected fetch, a response that is
    not [ok], a body that is not JSON and a value without a [sort] method
    all end in the [catch] handler. *)
Definition settle (r : FetchResult) (w : World) : World :=
  match r with
  | NetworkError => onError "TypeError: Failed to fetch" w
  | Response false _ => onError "Error: Failed to fetch trending data" w
  | Response true NotJson => onError "SyntaxError: Unexpected token" w
  | Response true (Json JOther) => onError "TypeError: data.sort is not a function" w
  | Response true (Json (JArray data)) => onData data w
  end.

(** [initTicker]: [found] tells whether the container element exists.
    Without it the script returns before it observes or fetches. *)
Definition initTicker (found : bool) : World :=
  if negb found then boot
  else set_fetching true (set_observing true (set_tickerElement true boot)).

(** What the browser can do next.  [Frame t] runs the oldest pending
    [animate] callback with time stamp [t]; [Timeout] runs the oldest dwell
    time-out once its delay has passed; [Intersect b] delivers an observer
    entry; [Settle r] settles the fetch. *)
Inductive Event :=
| Frame (currentTime : Q)
| Timeout
| Intersect (isIntersecting : bool)
| Settle (r : FetchResult).

(** One event at wall-clock time [now], on a page whose layout engine
    reports [lay] at that moment; [None] when the browser cannot deliver the
    event in this state. *)
Definition step (lay : Layout) (w : World) (o : Q * Event) : option World :=
  let (now, ev) := o in
  if Qle_bool (clock w) now then
    let w := set_clock now w in
    match ev with
    | Frame t =>
        match frames w with
        | [] => None
        | _ :: rest => Some (animate lay t (set_frames rest w))
        end
    | Timeout =>
        match timers w with
        | [] => None
        | due :: rest =>
            if Qle_bool due now then Some (set_isPaused false (set_timers rest w))
            else None
        end
    | Intersect b => if observing w then Some (observerCallback b w) else None
    | Settle r => if fetching w then Some (settle r (set_fetching false w)) else None
    end
  else None.

(** A run of the page.  Every event comes with the layout of its moment:
    [animate] reads [scrollWidth] and [offsetWidth] afresh on each tick, and
    a render, the notice or a resize of the window change them in between. *)
Fixpoint run (w : World) (os : list (Layout * (Q * Event))) : option World :=
  match os with
  | [] => Some w
  | (lay, o) :: os' =>
      match step lay w o with
      | Some w' => run w' os'
      | None => None
      end
  end.

(** The events [os] on a page whose layout stays [lay]. *)
Definition steady (lay : Layout) (os : list (Q * Event)) : list (Layout * (Q * Event)) :=
  List.map (pair lay) os.

(** The position the unpaused branch of [animate] computes before it
    tests the bounds. *)
Definition advanced (currentTime : Q) (w : World) : Q :=
  currentPosition w + TICKER_SPEED * direction w * ((currentTime - lastTime w) / 1000).

(** *** Vocabulary of the statements about the ticker *)

Definition in_range (lay : Layout) (p : Q) : Prop := lowerBound lay <= p /\ p <= 0.

(** The advanced position is at or beyond a bound. *)
Definition reaches (lay : Layout) (p : Q) : Prop := 0 <= p \/ p <= lowerBound lay.


Definition dir_ok (w : World) : Prop := direction w = -1 \/ direction w = 1.

(** One dwell time-out is pending while the ticker is paused, none otherwise. *)
Definition timers_ok (w : World) : Prop :=
  match timers w with
  | [] => isPaused w = false
  | [_] => isPaused w = true
  | _ => False
  end.

Definition pending_ok (w : World) : Prop := animationId w <> None -> frames w <> [].

Record Inv (w : World) : Prop := mkInv {
  inv_dir : dir_ok w;
  inv_timers : timers_ok w;
  inv_pending : pending_ok w
}.


Definition loaded (data : list Repo) : Event :=
  Settle (Response true (Json (JArray data))).


Definition is_failure (r : FetchResult) : bool :=
  match r with
  | Response true (Json (JArray _)) => false
  | _ => true
  end.




Definition wide : Layout := mkLayout 2000 300.


Definition world_of (os : list (Layout * (Q * Event))) : World :=
  match run (initTicker true) os with
  | Some w => w
  | None => boot
  end.

Definition world_after (lay : Layout) (os : list (Q * Event)) : World :=
  world_of (steady lay os).

(** The statements of the specification, word for word; the range is that
    of the layout at the moment of the last event. *)
Definition stays_in_range : Prop :=
  forall os lay o w,
    run (initTicker true) (os ++ [(lay, o)]) = Some w -> in_range lay (currentPosition w).




End Ticker.


(** ** The older ticker script

    No visibility observer, no clamping, and the time of the last frame is a
    local of [startAnimation] that only the moving branch updates.  The model
    follows one call of [initTicker]. *)

Module Legacy.

Local Open Scope Q_scope.

Definition TICKER_SPEED : Q := 50.
Definition TICKER_PAUSE : Q := 2000.

(** [tickerElement.offsetWidth] and [container.offsetWidth]. *)
Record Layout := mkLayout { elementWidth : Q; containerWidth : Q }.

Record TickerItem := mkItem {
  href : string;
  item_name : string;
  stars_text : string;
  lang_color : Color;
  lang_text : string
}.

Inductive Markup :=
| Untouched
| Items (items : list TickerItem)
| ErrorNotice.

(** The script's variables; [contentWidth] and [lastTime], the locals the
    closure [animate] captures; then the page and the browser's queues. *)
Record World := mkWorld {
  repos : list Repo;
  tickerElement : bool;
  animationId : option nat;
  isPaused : bool;
  direction : Q;
  currentPosition : Q;
  contentWidth : Q;
  lastTime : Q;
  innerHTML : Markup;
  styleWidth : option string;
  transform : option Q;
  frames : list nat;
  issued : nat;
  timers : list Q;
  fetching : bool;
  unloaded : bool;
  clock : Q;
  console : list string
}.

Definition set_repos v (w : World) : World :=
  mkWorld v (tickerElement w) (animationId w) (isPaused w) (direction w)
    (currentPosition w) (contentWidth w) (lastTime w) (innerHTML w) (styleWidth w)
    (transform w) (frames w) (issued w) (timers w) (fetching w) (unloaded w) (clock w)
    (console w).
Definition set_animationId v (w : World) : World :=
  mkWorld (repos w) (tickerElement w) v (isPaused w) (direction w) (currentPosition w)
    (contentWidth w) (lastTime w) (innerHTML w) (styleWidth w) (transform w) (frames w)
    (issued w) (timers w) (fetching w) (unloaded w) (clock w) (console w).
Definition set_isPaused v (w : World) : World :=
  mkWorld (repos w) (tickerElement w) (animationId w) v (direction w) (currentPosition w)
    (contentWidth w) (lastTime w) (innerHTML w) (styleWidth w) (transform w) (frames w)
    (issued w) (timers w) (fetching w) (unloaded w) (clock w) (console w).
Definition set_direction v (w : World) : World :=
  mkWorld (repos w) (tickerElement w) (animationId w) (isPaused w) v (currentPosition w)
    (contentWidth w) (lastTime w) (innerHTML w) (styleWidth w) (transform w) (frames w)
    (issued w) (timers w) (fetching w) (unloaded w) (clock w) (console w).
Definition set_currentPosition v (w : World) : World :=
  mkWorld (repos w) (tickerElement w) (animationId w) (isPaused w) (direction w) v
    (contentWidth w) (lastTime w) (innerHTML w) (styleWidth w) (transform w) (frames w)
    (issued w) (timers w) (fetching w) (unloaded w) (clock w) (console w).
Definition set_contentWidth v (w : World) : World :=
  mkWorld (repos w) (tickerElement w) (animationId w) (isPaused w) (direction w)
    (currentPosition w) v (lastTime w) (innerHTML w) (styleWidth w) (transform w)
    (frames w) (issued w) (timers w) (fetching w) (unloaded w) (clock w) (console w).
Definition set_lastTime v (w : World) : World :=
  mkWorld (repos w) (tickerElement w) (animationId w) (isPaused w) (direction w)
    (currentPosition w) (contentWidth w) v (innerHTML w) (styleWidth w) (transform w)
    (frames w) (issued w) (timers w) (fetching w) (unloaded w) (clock w) (console w).
Definition set_innerHTML v (w : World) : World :=
  mkWorld (repos w) (tickerElement w) (animationId w) (isPaused w) (direction w)
    (currentPosition w) (contentWidth w) (lastTime w) v (styleWidth w) (transform w)
    (frames w) (issued w) (timers w) (fetching w) (unloaded w) (clock w) (console w).
Definition set_styleWidth v (w : World) : World :=
  mkWorld (repos w) (tickerElement w) (animationId w) (isPaused w) (direction w)
    (currentPosition w) (contentWidth w) (lastTime w) (innerHTML w) v (transform w)
    (frames w) (issued w) (timers w) (fetching w) (unloaded w) (clock w) (console w).
Definition set_transform v (w : World) : World :=
  mkWorld (repos w) (tickerElement w) (animationId w) (isPaused w) (direction w)
    (currentPosition w) (contentWidth w) (lastTime w) (innerHTML w) (styleWidth w) v
    (frames w) (issued w) (timers w) (fetching w) (unloaded w) (clock w) (console w).
Definition set_frames v (w : World) : World :=
  mkWorld (repos w) (tickerElement w) (animationId w) (isPaused w) (direction w)
    (currentPosition w) (contentWidth w) (lastTime w) (innerHTML w) (styleWidth w)
    (transform w) v (issued w) (timers w) (fetching w) (unloaded w) (clock w) (console w).
Definition set_issued v (w : World) : World :=
  mkWorld (repos w) (tickerElement w) (animationId w) (isPaused w) (direction w)
    (currentPosition w) (contentWidth w) (lastTime w) (innerHTML w) (styleWidth w)
    (transform w) (frames w) v (timers w) (fetching w) (unloaded w) (clock w) (console w).
Definition set_timers v (w : World) : World :=
  mkWorld (repos w) (tickerElement w) (animationId w) (isPaused w) (direction w)
    (currentPosition w) (contentWidth w) (lastTime w) (innerHTML w) (styleWidth w)
    (transform w) (frames w) (issued w) v (fetching w) (unloaded w) (clock w) (console w).
Definition set_fetching v (w : World) : World :=
  mkWorld (repos w) (tickerElement w) (animationId w) (isPaused w) (direction w)
    (currentPosition w) (contentWidth w) (lastTime w) (innerHTML w) (styleWidth w)
    (transform w) (frames w) (issued w) (timers w) v (unloaded w) (clock w) (console w).
Definition set_unloaded v (w : World) : World :=
  mkWorld (repos w) (tickerElement w) (animationId w) (isPaused w) (direction w)
    (currentPosition w) (contentWidth w) (lastTime w) (innerHTML w) (styleWidth w)
    (transform w) (frames w) (issued w) (timers w) (fetching w) v (clock w) (console w).
Definition set_clock v (w : World) : World :=
  mkWorld (repos w) (tickerElement w) (animationId w) (isPaused w) (direction w)
    (currentPosition w) (contentWidth w) (lastTime w) (innerHTML w) (styleWidth w)
    (transform w) (frames w) (issued w) (timers w) (fetching w) (unloaded w) v (console w).
Definition set_console v (w : World) : World :=
  mkWorld (repos w) (tickerElement w) (animationId w) (isPaused w) (direction w)
    (currentPosition w) (contentWidth w) (lastTime w) (innerHTML w) (styleWidth w)
    (transform w) (frames w) (issued w) (timers w) (fetching w) (unloaded w) (clock w) v.

Definition boot : World :=
  mkWorld [] false None false 1 0 0 0 Untouched None None [] O [] false false 0 [].

Definition requestAnimationFrame (w : World) : World * nat :=
  let h := S (issued w) in
  (set_issued h (set_frames (frames w ++ [h]) w), h).

(** [cancelAnimationFrame(id)]. *)
Definition cancelAnimationFrame (id : nat) (w : World) : World :=
  set_frames (List.filter (fun h => negb (Nat.eqb h id)) (frames w)) w.

Definition setTimeout (delay : Q) (w : World) : World :=
  set_timers (timers w ++ [clock w + delay]) w.

Definition colors : gmap string string :=
  list_to_map
    [("JavaScript", "#f1e05a"); ("TypeScript", "#2b7489"); ("Python", "#3572A5");
     ("Go", "#00ADD8"); ("Rust", "#dea584"); ("Java", "#b07219"); ("C++", "#f34b7d");
     ("Ruby", "#701516"); ("PHP", "#4F5D95"); ("Shell", "#89e051")]%string.

Definition getLangColor (lang : string) : Color :=
  match colors !! lang with
  | Some c => Css c
  | None =>
      if existsb (String.eqb lang) JS.objectPrototype then Inherited lang
      else Css "#8b8b8b"
  end.

Definition ticker_item (repo : Repo) : TickerItem :=
  mkItem (url repo) (name repo) (formatNumber (stars_today repo))
    (getLangColor (language repo)) (language repo).

(** [(repos.length * 2) + '00%']. *)
Definition renderTicker (w : World) : World :=
  match repos w with
  | [] => w
  | _ :: _ =>
      let html := List.map ticker_item (repos w) in
      let w := set_innerHTML (Items (html ++ html)) w in
      set_styleWidth
        (Some (JS.decimal (Z.of_nat (List.length (repos w)) * 2) ++ "00%")%string) w
  end.

Definition animate (lay : Layout) (currentTime : Q) (w : World) : World :=
  let w :=
    if negb (isPaused w) then
      let deltaTime := (currentTime - lastTime w) / 1000 in
      let w := set_lastTime currentTime w in
      let w :=
        set_currentPosition
          (currentPosition w + TICKER_SPEED * direction w * deltaTime) w in
      let w :=
        if Qle_bool 0 (currentPosition w) then
          setTimeout TICKER_PAUSE (set_isPaused true (set_direction (-1) w))
        else if Qle_bool (currentPosition w) (- (contentWidth w - containerWidth lay)) then
          setTimeout TICKER_PAUSE (set_isPaused true (set_direction 1 w))
        else w in
      set_transform (Some (currentPosition w)) w
    else w in
  let (w, h) := requestAnimationFrame w in
  set_animationId (Some h) w.

Definition startAnimation (lay : Layout) (w : World) : World :=
  let w := set_contentWidth (elementWidth lay / 2) w in
  let w := set_lastTime (clock w) w in
  let (w, h) := requestAnimationFrame w in
  set_animationId (Some h) w.

Definition onData (lay : Layout) (data : list Repo) (w : World) : World :=
  let w := set_repos (sortRepos data) w in
  let w := renderTicker w in
  startAnimation lay w.

Definition onError (err : string) (w : World) : World :=
  let w := set_console (console w ++ [("Ticker error: " ++ err)%string]) w in
  set_innerHTML ErrorNotice w.

Definition settle (lay : Layout) (r : FetchResult) (w : World) : World :=
  match r with
  | NetworkError => onError "TypeError: Failed to fetch" w
  | Response false _ => onError "Error: Failed to fetch trending data" w
  | Response true NotJson => onError "SyntaxError: Unexpected token" w
  | Response true (Json JOther) => onError "TypeError: data.sort is not a function" w
  | Response true (Json (JArray data)) => onData lay data w
  end.

Definition initTicker (found : bool) : World :=
  if negb found then set_console ["Ticker container not found"%string] boot
  else set_fetching true (mkWorld [] true None false 1 0 0 0 Untouched None None [] O []
                            false false 0 []).

(** The listener of the [unload] event. *)
Definition onUnload (w : World) : World :=
  match animationId w with
  | Some id => cancelAnimationFrame id w
  | None => w
  end.

Inductive Event :=
| Frame (currentTime : Q)
| Timeout
| Settle (r : FetchResult)
| Unload.

(** Nothing runs on a page that has unloaded. *)
Definition step (lay : Layout) (w : World) (o : Q * Event) : option World :=
  let (now, ev) := o in
  if Qle_bool (clock w) now && negb (unloaded w) then
    let w := set_clock now w in
    match ev with
    | Frame t =>
        match frames w with
        | [] => None
        | _ :: rest => Some (animate lay t (set_frames rest w))
        end
    | Timeout =>
        match timers w with
        | [] => None
        | due :: rest =>
            if Qle_bool due now then Some (set_isPaused false (set_timers rest w))
            else None
        end
    | Settle r => if fetching w then Some (settle lay r (set_fetching false w)) else None
    | Unload => Some (set_unloaded true (onUnload w))
    end
  else None.

Fixpoint run (lay : Layout) (w : World) (os : list (Q * Event)) : option World :=
  match os with
  | [] => Some w
  | o :: os' =>
      match step lay w o with
      | Some w' => run lay w' os'
      | None => None
      end
  end.

(** *** Vocabulary of the statements about the older script *)

Definition loaded (data : list Repo) : Event :=
  Settle (Response true (Json (JArray data))).

Definition demo_layout : Layout := mkLayout 4000 300.

Definition demo_after (os : list (Q * Event)) : World :=
  match run demo_layout (initTicker true) os with
  | Some w => w
  | None => boot
  end.

(** The range statement of the specification, read for the older script. *)
Definition in_range (lay : Layout) (p : Q) : Prop :=
  - (elementWidth lay / 2 - containerWidth lay) <= p /\ p <= 0.

Definition stays_in_range (lay : Layout) : Prop :=
  forall os w, run lay (initTicker true) os = Some w -> in_range lay (currentPosition w).

(** The one callback of the loop, as [animationId] records it; there is
    none before the fetch has settled. *)
Definition loop_ok (w : World) : Prop :=
  frames w = match animationId w with Some h => [h] | None => [] end
  /\ (fetching w = true -> animationId w = None).

(** What a failed fetch leaves behind. *)
Definition quiet (w : World) : Prop :=
  frames w = [] /\ timers w = [] /\ fetching w = false /\ issued w = O
  /\ animationId w = None /\ innerHTML w = ErrorNotice.

End Legacy.

(** ** The visual QC suites

    [Suite] is [visual-qc.spec.js]; [SuiteWithHelpers] is its sibling copy,
    the one that defines [assertNoHorizontalScroll] and [assertLayoutSanity].
    A selector [[data-testid=...]] is represented by its test id. *)

Module QC.

Local Open Scope string_scope.

(** A loaded page as the suite can observe it. *)
Record Page := mkPage {
  location : string;               (* page.url() *)
  navLinks : list (string * bool); (* every nav-link: its href, and is it visible *)
  mobileMenu : list bool;          (* every mobile-menu element: is it visible *)
  visible : list string;           (* test ids of the other visible elements *)
  pageErrors : list string;        (* page errors and console errors of the load *)
  docScrollWidth : Z;              (* document.documentElement.scrollWidth *)
  docClientWidth : Z               (* document.documentElement.clientWidth *)
}.

(** The deployed site: the root page rendered at a viewport, and the page
    a link with a given [href] leads to. *)
Record Site := mkSite {
  root : Z * Z -> Page;
  follow : string -> Page
}.

Inductive Failure :=
| TimeoutError (what : string)
| AssertionError (what : string).

Inductive Outcome (A : Type) :=
| Passed (a : A)
| Failed (e : Failure).
Arguments Passed {A} a.
Arguments Failed {A} e.

(** One browser page of one test case: what it shows, and what the case
    has left behind so far. *)
Record Session := mkSession {
  viewport : Z * Z;
  page : Page;
  shots : list string;           (* files written under screenshots/ *)
  log : list string;             (* console.log lines *)
  clicked : list string          (* hrefs page.click was called with *)
}.

(** A test body: it threads the session and stops at the first failed
    action, as an [await] on a rejected promise does. *)
Definition Test (A : Type) : Type := Session -> Outcome A * Session.

Definition ret {A} (a : A) : Test A := fun s => (Passed a, s).

Definition bind {A B} (m : Test A) (k : A -> Test B) : Test B :=
  fun s =>
    match m s with
    | (Passed a, s') => k a s'
    | (Failed e, s') => (Failed e, s')
    end.

Notation "x <- m ;;; k" := (bind m (fun x => k))
  (at level 20, m at level 99, k at level 200, only parsing).
Notation "m ;;; k" := (bind m (fun _ => k))
  (at level 100, k at level 200, right associativity, only parsing).

Definition throw {A} (e : Failure) : Test A := fun s => (Failed e, s).

Fixpoint for_of {A} (l : list A) (body : A -> Test unit) : Test unit :=
  match l with
  | [] => ret tt
  | x :: l' => body x ;;; for_of l' body
  end.

(** *** Page actions *)

Definition setViewportSize (size : Z * Z) : Test unit :=
  fun s => (Passed tt, mkSession size (page s) (shots s) (log s) (clicked s)).

Definition goto_root (site : Site) : Test unit :=
  fun s =>
    (Passed tt, mkSession (viewport s) (root site (viewport s)) (shots s) (log s) (clicked s)).

(** [page.click] on the nav link with this [href]: it takes the first such
    link and times out when there is none or when it stays hidden. *)
Definition click (site : Site) (href : string) : Test unit :=
  fun s =>
    let s' := mkSession (viewport s) (page s) (shots s) (log s) (clicked s ++ [href]) in
    match List.find (fun l => String.eqb href (fst l)) (navLinks (page s)) with
    | Some (_, true) =>
        (Passed tt,
         mkSession (viewport s) (follow site href) (shots s) (log s) (clicked s'))
    | _ => (Failed (TimeoutError ("page.click: " ++ href)), s')
    end.

Definition screenshot (path : string) : Test unit :=
  fun s =>
    (Passed tt, mkSession (viewport s) (page s) (shots s ++ [path]) (log s) (clicked s)).

Definition console_log (line : string) : Test unit :=
  fun s =>
    (Passed tt, mkSession (viewport s) (page s) (shots s) (log s ++ [line]) (clicked s)).

(** The messages the [pageerror] and [console] listeners have pushed. *)
Definition collected_errors : Test (list string) :=
  fun s => (Passed (pageErrors (page s)), s).

Definition count_navLinks : Test nat :=
  fun s => (Passed (List.length (navLinks (page s))), s).

(** [locator.first().isVisible()]: [false] when nothing matches. *)
Definition first_visible (l : list bool) : bool :=
  match l with
  | v :: _ => v
  | [] => false
  end.

Definition nav_first_isVisible : Test bool :=
  fun s => (Passed (first_visible (List.map snd (navLinks (page s)))), s).

Definition hamburger_count : Test nat :=
  fun s => (Passed (List.length (mobileMenu (page s))), s).

Definition hamburger_first_isVisible : Test bool :=
  fun s => (Passed (first_visible (mobileMenu (page s))), s).

Definition expect_toBe (actual expected : nat) : Test unit :=
  if Nat.eqb actual expected then ret tt
  else throw (AssertionError "expect(received).toBe(expected)").

Definition expect_toBe_true (actual : bool) : Test unit :=
  if actual then ret tt
  else throw (AssertionError "expect(received).toBe(true)").

Definition expect_toHaveLength0 (l : list string) : Test unit :=
  match l with
  | [] => ret tt
  | _ :: _ => throw (AssertionError "expect(received).toHaveLength(0)")
  end.

Definition expect_toBeVisible (testid : string) : Test unit :=
  fun s =>
    if existsb (String.eqb testid) (visible (page s)) then (Passed tt, s)
    else (Failed (TimeoutError ("toBeVisible: " ++ testid)), s).

(** The pattern of the walk is the path followed by [$]: it must match
    the end of the URL, and a dot in the path matches any character. *)
Fixpoint match_chars (pat s : string) : bool :=
  match pat, s with
  | EmptyString, EmptyString => true
  | String p pat', String c s' =>
      (Ascii.eqb p "." || Ascii.eqb p c) && match_chars pat' s'
  | _, _ => false
  end.

Definition url_matches (path url : string) : bool :=
  let n := String.length url in
  let k := String.length path in
  (k <=? n)%nat && match_chars path (String.substring (n - k) k url).

Definition expect_toHaveURL (path : string) : Test unit :=
  fun s =>
    if url_matches path (location (page s)) then (Passed tt, s)
    else (Failed (AssertionError ("toHaveURL: " ++ path)), s).

(** [doc.scrollWidth > doc.clientWidth + 1]. *)
Definition hasOverflow (p : Page) : bool :=
  (docClientWidth p + 1 <? docScrollWidth p)%Z.

Definition assertNoHorizontalScroll : Test unit :=
  fun s =>
    if hasOverflow (page s) then
      (Failed (AssertionError "expect(received).toBeFalsy()"), s)
    else (Passed tt, s).

Definition assertLayoutSanity : Test unit :=
  expect_toBeVisible "site-nav" ;;;
  expect_toBeVisible "techquest-logo".

(** *** Strings of the screenshot names *)

Definition lower (c : ascii) : ascii :=
  let n := nat_of_ascii c in
  if ((65 <=? n) && (n <=? 90))%nat then ascii_of_nat (n + 32) else c.

Fixpoint toLowerCase (s : string) : string :=
  match s with
  | EmptyString => EmptyString
  | String c s' => String (lower c) (toLowerCase s')
  end.

(** [s.replace(' ', '-')]: the first space only. *)
Fixpoint replace_space (s : string) : string :=
  match s with
  | EmptyString => EmptyString
  | String c s' => if Ascii.eqb c " " then String "-" s' else String c (replace_space s')
  end.

Record NavEntry := mkNav { label : string; path : string; element : string }.

Record Breakpoint := mkBp { bp_name : string; width : Z; height : Z }.

Definition breakpoints : list Breakpoint :=
  [ mkBp "mobile-small" 320 568; mkBp "mobile-medium" 375 667;
    mkBp "mobile-large" 414 896; mkBp "tablet" 768 1024;
    mkBp "desktop" 1280 720; mkBp "desktop-large" 1920 1080 ].

(** The body of the walk's loop, the same in both files up to the file
    name of the screenshot and the log line. *)
Definition visit (site : Site) (shot : string -> string) (done : string) (pg : NavEntry)
  : Test unit :=
  click site (path pg) ;;;
  expect_toHaveURL (path pg) ;;;
  expect_toBeVisible (element pg) ;;;
  screenshot ("screenshots/nav-" ++ shot (label pg) ++ ".png") ;;;
  console_log (label pg ++ done).

(** [test.beforeEach] of the home-page group, the same in both files:
    the errors of the load are logged and nothing else. *)
Definition beforeEach (site : Site) : Test unit :=
  goto_root site ;;;
  errors <- collected_errors ;;;
  match errors with
  | [] => ret tt
  | _ :: _ => console_log ("Page errors: " ++ String.concat ", " errors)
  end.

(** A fresh page of a test case (the default viewport of the runner). *)
Definition fresh : Session :=
  mkSession (1280, 720)%Z (mkPage "about:blank" [] [] [] [] 0 0) [] [] [].

Module Suite.

Definition pagesToTest : list NavEntry :=
  [ mkNav "Home" "/" "page-home";
    mkNav "Blog" "/blog/" "page-blog";
    mkNav "Reviews" "/reviews/" "page-reviews";
    mkNav "Walkthroughs" "/blog/walkthroughs.html" "page-walkthroughs";
    mkNav "Resources" "/resources.html" "page-resources";
    mkNav "KAI Corner" "/kai-corner.html" "page-kai-corner";
    mkNav "Tasks" "/tasks.html" "page-tasks";
    mkNav "Tools" "/tools.html" "page-tools" ].

(** [test('logo is visible in KAI section')]. *)
Definition logo : Test unit :=
  expect_toBeVisible "techquest-logo" ;;;
  screenshot "screenshots/logo-visible.png".

(** [test('navigation has all 8 links that WORK')]. *)
Definition navigation (site : Site) : Test unit :=
  count <- count_navLinks ;;;
  expect_toBe count 8 ;;;
  for_of pagesToTest
    (visit site (fun n => replace_space (toLowerCase n)) " loaded and verified").

Definition benign (e : string) : bool :=
  JS.includes e "favicon" || JS.includes e "font" || JS.includes e "404"
  || JS.includes e "ERR_FILE_NOT_FOUND".

(** [test('homepage loads without errors')]. *)
Definition loads_without_errors (site : Site) : Test unit :=
  goto_root site ;;;
  errors <- collected_errors ;;;
  expect_toHaveLength0 (List.filter (fun e => negb (benign e)) errors) ;;;
  screenshot "screenshots/homepage-loaded.png".

(** [test('iPhone 12 layout works')]. *)
Definition iphone12 (site : Site) : Test unit :=
  setViewportSize (390, 844)%Z ;;;
  goto_root site ;;;
  expect_toBeVisible "techquest-logo" ;;;
  navVisible <- nav_first_isVisible ;;;
  count <- hamburger_count ;;;
  first <- hamburger_first_isVisible ;;;
  expect_toBe_true (navVisible || (Nat.ltb 0 count && first)) ;;;
  screenshot "screenshots/mobile-iphone-12.png".

(** [test('Android Pixel 5 layout works')] and
    [test('Tablet iPad Mini layout works')]. *)
Definition device (site : Site) (size : Z * Z) (shot : string) : Test unit :=
  setViewportSize size ;;;
  goto_root site ;;;
  expect_toBeVisible "techquest-logo" ;;;
  screenshot shot.

Definition pixel5 (site : Site) : Test unit :=
  device site (393, 852)%Z "screenshots/mobile-pixel-5.png".

Definition ipadMini (site : Site) : Test unit :=
  device site (768, 1024)%Z "screenshots/tablet-ipad-mini.png".

(** One case of [test.describe('Visual QC - Responsive')]. *)
Definition responsive (site : Site) (bp : Breakpoint) : Test unit :=
  setViewportSize (width bp, height bp) ;;;
  goto_root site ;;;
  expect_toBeVisible "techquest-logo" ;;;
  screenshot ("screenshots/responsive-" ++ bp_name bp ++ ".png").

End Suite.

Module SuiteWithHelpers.

Definition pages : list NavEntry :=
  [ mkNav "home" "/" "page-home";
    mkNav "blog" "/blog/" "page-blog";
    mkNav "reviews" "/reviews/" "page-reviews";
    mkNav "walkthroughs" "/blog/walkthroughs.html" "page-walkthroughs";
    mkNav "resources" "/resources.html" "page-resources";
    mkNav "kai-corner" "/kai-corner.html" "page-kai-corner";
    mkNav "tasks" "/tasks.html" "page-tasks";
    mkNav "tools" "/tools.html" "page-tools" ].

(** [test('logo is visible')]. *)
Definition logo : Test unit :=
  expect_toBeVisible "techquest-logo" ;;;
  screenshot "screenshots/logo-visible.png".

(** [test('navigation links WORK (click+200+element)')]. *)
Definition navigation (site : Site) : Test unit :=
  for_of pages (visit site (fun n => n) " verified").

Definition benign (e : string) : bool :=
  JS.includes e "favicon" || JS.includes e "font"
  || JS.includes e "ERR_FILE_NOT_FOUND".

Definition loads_without_errors (site : Site) : Test unit :=
  goto_root site ;;;
  errors <- collected_errors ;;;
  expect_toHaveLength0 (List.filter (fun e => negb (benign e)) errors) ;;;
  screenshot "screenshots/homepage-loaded.png".

(** The three cases of [test.describe('Visual QC - Mobile')]. *)
Definition device (site : Site) (size : Z * Z) (shot : string) : Test unit :=
  setViewportSize size ;;;
  goto_root site ;;;
  expect_toBeVisible "techquest-logo" ;;;
  assertNoHorizontalScroll ;;;
  assertLayoutSanity ;;;
  screenshot shot.

Definition devices : list ((Z * Z) * string) :=
  [ ((390, 844)%Z, "screenshots/mobile-iphone-12.png");
    ((393, 852)%Z, "screenshots/mobile-pixel-5.png");
    ((768, 1024)%Z, "screenshots/tablet-ipad-mini.png") ].

Definition responsive (site : Site) (bp : Breakpoint) : Test unit :=
  setViewportSize (width bp, height bp) ;;;
  goto_root site ;;;
  expect_toBeVisible "techquest-logo" ;;;
  assertNoHorizontalScroll ;;;
  screenshot ("screenshots/responsive-" ++ bp_name bp ++ ".png").

End SuiteWithHelpers.

(** *** The report writer: [test.afterEach] of [visual-qc.spec.js] *)

Inductive Status := passed | failed | timedOut | skipped | interrupted.

Definition status_text (st : Status) : string :=
  match st with
  | passed => "passed"
  | failed => "failed"
  | timedOut => "timedOut"
  | skipped => "skipped"
  | interrupted => "interrupted"
  end.

Record TestInfo := mkInfo { title : string; status : Status; duration : Z }.

(** The object [report] that [JSON.stringify] serialises. *)
Record QCResult := mkResult {
  timestamp : string;
  test : string;
  result_status : Status;
  result_duration : Z;
  artifacts : list string
}.

(** A dated report directory: the screenshots copied into it and its two
    files.  [report_json] is the one JSON object the file holds. *)
Record ReportDir := mkDir {
  copied : gset string;
  report_json : option QCResult;
  report_md : option string
}.

(** The part of the file system the hook touches: the working directory
    [screenshots] ([None] while it does not exist) and the report
    directories by path. *)
Record Disk := mkDisk {
  screenshots : option (gset string);
  reports : gmap string ReportDir
}.

(** [iso.split('T')[0]]. *)
Fixpoint isoDate (iso : string) : string :=
  match iso with
  | EmptyString => EmptyString
  | String c rest => if Ascii.eqb c "T" then EmptyString else String c (isoDate rest)
  end.

Definition nl : string := String (ascii_of_nat 10) EmptyString.

(** [fs.readdirSync('screenshots').filter(f => f.endsWith('.png'))], or
    the empty array when the directory does not exist. *)
Definition pngs (d : Disk) : list string :=
  match screenshots d with
  | Some files => List.filter (fun f => JS.endsWith f ".png") (elements files)
  | None => []
  end.

Definition summary (date qcDir iso : string) (info : TestInfo) : string :=
  "# Visual QC Report - " ++ date ++ nl ++ nl ++
  "**Test:** " ++ title info ++ nl ++
  "**Status:** " ++ status_text (status info) ++ nl ++
  "**Duration:** " ++ JS.decimal (duration info) ++ "ms" ++ nl ++ nl ++
  "## Artifacts" ++ nl ++ nl ++
  "- Screenshots: " ++ qcDir ++ "/screenshots/" ++ nl ++
  "- Report: " ++ qcDir ++ "/report.json" ++ nl ++ nl ++
  "---" ++ nl ++ "Generated: " ++ iso ++ nl.

(** The hook; [today] and [now] are the ISO strings of its two
    [new Date()]. *)
Definition afterEach (today now : string) (info : TestInfo) (d : Disk) : Disk :=
  let date := isoDate today in
  let qcDir := "../qc/" ++ date in
  (* mkdirSync(..., { recursive: true }) keeps a directory that exists *)
  let dir := default (mkDir ∅ None None) (reports d !! qcDir) in
  let dir := mkDir (copied dir ∪ list_to_set (pngs d)) (report_json dir) (report_md dir) in
  let report := mkResult now (title info) (status info) (duration info) (pngs d) in
  (* writeFileSync replaces the content of the file *)
  let dir := mkDir (copied dir) (Some report) (report_md dir) in
  let dir := mkDir (copied dir) (report_json dir) (Some (summary date qcDir now info)) in
  mkDisk (screenshots d) (<[qcDir := dir]> (reports d)).

(** One completed test case: what Playwright reports about it, the files
    its body wrote under [screenshots/], and the time its hook ran. *)
Record Case := mkCase { info : TestInfo; written : list string; finished : string }.

(** [page.screenshot({ path })] creates the directory when needed. *)
Definition save (files : list string) (d : Disk) : Disk :=
  match files with
  | [] => d
  | _ :: _ =>
      mkDisk (Some (default ∅ (screenshots d) ∪ list_to_set files)) (reports d)
  end.

Definition complete (d : Disk) (c : Case) : Disk :=
  afterEach (finished c) (finished c) (info c) (save (written c) d).

Definition run_cases (d : Disk) (cases : list Case) : Disk :=
  fold_left complete cases d.

(** The entries the report file of a directory contains. *)
Definition entries (d : Disk) (qcDir : string) : list QCResult :=
  match reports d !! qcDir with
  | Some dir => match report_json dir with Some r => [r] | None => [] end
  | None => []
  end.

(** The outcome of a body run on a fresh page after its [beforeEach]. *)
Definition run_case (before body : Test unit) : Outcome unit * Session :=
  (before ;;; body) fresh.

(** *** Vocabulary of the statements about the suites *)

Definition is_passed {A} (o : Outcome A) : bool :=
  match o with Passed _ => true | Failed _ => false end.

(** The root page at the default viewport. *)
Definition home (site : Site) : Page := root site (1280, 720)%Z.

(** What [beforeEach] logs on the way to the root page. *)
Definition before_log (site : Site) : list string :=
  match pageErrors (home site) with
  | [] => []
  | _ :: _ => ["Page errors: " ++ String.concat ", " (pageErrors (home site))]
  end.

(** Would this entry pass, tried on the page [cur]? *)
Definition passes (site : Site) (cur : Page) (pg : NavEntry) : bool :=
  match List.find (fun l => String.eqb (path pg) (fst l)) (navLinks cur) with
  | Some (_, true) =>
      url_matches (path pg) (location (follow site (path pg)))
      && existsb (String.eqb (element pg)) (visible (follow site (path pg)))
  | _ => false
  end.

(** The entries the walk verifies: the longest prefix that passes, each
    entry tried on the page its predecessor opened. *)
Fixpoint verified (site : Site) (cur : Page) (l : list NavEntry) : list NavEntry :=
  match l with
  | [] => []
  | pg :: l' =>
      if passes site cur pg then pg :: verified site (follow site (path pg)) l' else []
  end.

(** The entries the walk clicks: the verified ones and the first that fails. *)
Fixpoint attempted (site : Site) (cur : Page) (l : list NavEntry) : list NavEntry :=
  match l with
  | [] => []
  | pg :: l' =>
      pg :: (if passes site cur pg then attempted site (follow site (path pg)) l' else [])
  end.

(** A site whose pages are all in order, except that the reviews page does
    not show its marker when [reviews_marker] is [false]. *)
Definition site_page (pg : NavEntry) (marker : bool) : Page :=
  mkPage ("https://robertc30.github.io" ++ path pg)
    (List.map (fun e => (path e, true)) Suite.pagesToTest)
    []
    (if marker then ["site-nav"; "techquest-logo"; element pg]
     else ["site-nav"; "techquest-logo"])
    []
    1280 1280.

Definition broken_reviews : Site :=
  mkSite
    (fun _ => site_page (mkNav "Home" "/" "page-home") true)
    (fun href =>
       match List.find (fun pg => String.eqb (path pg) href) Suite.pagesToTest with
       | Some pg => site_page pg (negb (String.eqb href "/reviews/"))
       | None => mkPage "about:blank" [] [] [] [] 0 0
       end).

Definition healthy : Site :=
  mkSite
    (fun _ => site_page (mkNav "Home" "/" "page-home") true)
    (fun href =>
       match List.find (fun pg => String.eqb (path pg) href) Suite.pagesToTest with
       | Some pg => site_page pg true
       | None => mkPage "about:blank" [] [] [] [] 0 0
       end).

(** A root page whose load reports one failed request. *)
Definition missing_image : Site :=
  mkSite
    (fun _ => mkPage "https://robertc30.github.io/landing-page/" [] []
                ["site-nav"; "techquest-logo"]
                ["Failed to load resource: the server responded with a status of 404 ()"]
                1280 1280)
    (fun _ => mkPage "about:blank" [] [] [] [] 0 0).

(** A root page that is 80 pixels wider than every viewport. *)
Definition overflowing : Site :=
  mkSite
    (fun vp => mkPage "https://robertc30.github.io/landing-page/" [] []
                 ["site-nav"; "techquest-logo"] [] (fst vp + 80) (fst vp))
    (fun _ => mkPage "about:blank" [] [] [] [] 0 0).

Definition qcDir_of (c : Case) : string := "../qc/" ++ isoDate (finished c).

(** The report the hook writes for [c] on the disk [before] it. *)
Definition report_of (before : Disk) (c : Case) : QCResult :=
  mkResult (finished c) (title (info c)) (status (info c)) (duration (info c))
    (pngs (save (written c) before)).

Definition two_cases : list Case :=
  [ mkCase (mkInfo "logo is visible in KAI section" passed 812) ["logo-visible.png"]
      "2026-02-04T10:00:00.000Z";
    mkCase (mkInfo "homepage loads without errors" failed 3051) []
      "2026-02-04T10:00:04.000Z" ].

(** The statements of the specification, word for word. *)
Definition visits_every_tuple (site : Site) : Prop :=
  forall pg, In pg Suite.pagesToTest ->
    In (path pg) (clicked (snd (run_case (beforeEach site) (Suite.navigation site)))).

Definition report_keeps_every_case (d : Disk) (cases : list Case) (dir : string) : Prop :=
  List.length (entries (run_cases d cases) dir) = List.length cases.

End QC.

(** * Proofs *)

(** ** Sorting the fixture *)

Section SortFacts.
Context {A : Type} (cmp : A -> A -> Q).

Lemma insert_perm (x : A) (l : list A) : Permutation (JS.insert cmp x l) (x :: l).
Proof.
  induction l as [|y l IH]; simpl.
  - reflexivity.
  - destruct (Qlt_le_dec 0 (cmp x y)).
    + rewrite IH. apply perm_swap.
    + reflexivity.
Qed.

Lemma sort_perm (l : list A) : Permutation (JS.sort cmp l) l.
Proof.
  induction l as [|x l IH]; simpl.
  - reflexivity.
  - unfold JS.sort in *. simpl. rewrite insert_perm. now constructor.
Qed.
End SortFacts.

Lemma insert_desc (x : Repo) (l : list Repo) :
  StronglySorted desc l -> StronglySorted desc (JS.insert by_score_desc x l).
Proof.
  induction 1 as [|y l Hl IH Hy]; simpl.
  - repeat constructor.
  - destruct (Qlt_le_dec 0 (by_score_desc x y)) as [Hlt|Hle].
    + constructor; [exact IH|].
      rewrite (insert_perm by_score_desc x l). constructor; [|exact Hy].
      unfold desc, by_score_desc in *. lra.
    + constructor; [now constructor|].
      assert (Hxy : desc x y) by (unfold desc, by_score_desc in *; lra).
      constructor; [exact Hxy|].
      eapply List.Forall_impl; [|exact Hy].
      intros z Hz. unfold desc in *. lra.
Qed.

Lemma sortRepos_desc (data : list Repo) : StronglySorted desc (sortRepos data).
Proof.
  induction data as [|x l IH]; simpl.
  - constructor.
  - now apply insert_desc.
Qed.



Lemma sortRepos_sorted (l : list Repo) : StronglySorted desc l -> sortRepos l = l.
Proof.
  induction 1 as [|x l Hl IH Hx].
  - reflexivity.
  - unfold sortRepos, JS.sort in *. cbn [fold_right]. rewrite IH.
    destruct l as [|y l']; [reflexivity|]. cbn [JS.insert].
    destruct (Qlt_le_dec 0 (by_score_desc x y)) as [Hlt|Hle]; [|reflexivity].
    inversion Hx as [|? ? Hxy _]; subst. unfold desc, by_score_desc in *. lra.
Qed.


(** Sorting a fixture that is already in descending order changes nothing,
    so sorting twice is sorting once. *)
Theorem sortRepos_idempotent (data : list Repo) :
  sortRepos (sortRepos data) = sortRepos data
  /\ (StronglySorted desc data -> sortRepos data = data).
Proof.
  split.
  - apply sortRepos_sorted, sortRepos_desc.
  - apply sortRepos_sorted.
Qed.

Lemma sortRepos_idempotent_witness :
  StronglySorted desc [demo_repo; demo_repo]
  /\ sortRepos [demo_repo; demo_repo] = [demo_repo; demo_repo].
Proof.
  assert (H : StronglySorted desc [demo_repo; demo_repo]).
  { repeat constructor; unfold desc; cbn; lra. }
  split; [exact H|].
  exact (proj2 (sortRepos_idempotent [demo_repo; demo_repo]) H).
Defined.

(** ** Star counts *)

Lemma parse_decimal_decimal (n : Z) : 0 <= n -> parse_decimal (JS.decimal n) = Some n.
Proof.
  intros Hn. unfold parse_decimal, JS.decimal.
  rewrite NilZero.usu.
  - cbn. rewrite DecimalN.Unsigned.of_to. now rewrite Z2N.id.
  - destruct (Z.to_N n) as [|p]; [discriminate|].
    apply DecimalPos.Unsigned.to_uint_nonnil.
Qed.

Section Binary64.
Local Open Scope Q_scope.

Lemma pow2_pos (e : Z) : 0 < JS.pow2 e.
Proof. apply Qpower_0_lt. reflexivity. Qed.

Lemma pow2_add (a b : Z) : JS.pow2 (a + b) == JS.pow2 a * JS.pow2 b.
Proof. apply Qpower_plus. discriminate. Qed.

Lemma pow2_Z (n : Z) : (0 <= n)%Z -> JS.pow2 n == inject_Z (2 ^ n).
Proof. intros Hn. unfold JS.pow2. now rewrite Zpower_Qpower. Qed.

Lemma rne_near (y : Q) : Qabs (inject_Z (JS.rne y) - y) <= 1 # 2.
Proof.
  unfold JS.rne.
  pose proof (Qfloor_le y) as Hlo. pose proof (Qlt_floor y) as Hhi.
  rewrite inject_Z_plus in Hhi. change (inject_Z 1) with 1 in Hhi.
  apply Qabs_Qle_condition.
  destruct (Qcompare_spec (y - inject_Z (Qfloor y)) (1 # 2)) as [He|Hl|Hg].
  - destruct (Z.even (Qfloor y));
      rewrite ?inject_Z_plus; change (inject_Z 1) with 1; lra.
  - lra.
  - rewrite inject_Z_plus. change (inject_Z 1) with 1. lra.
Qed.

(** The exponent leaves at least 53 bits to the significand. *)
Lemma exponent_normal (x : Q) :
  (0 < Qnum x)%Z -> JS.pow2 52 <= x / JS.pow2 (JS.exponent x).
Proof.
  intros Hpos. destruct x as [a b]. unfold JS.exponent. cbn [Qnum Qden] in *.
  set (e0 := (Z.log2 a - Z.log2 (Z.pos b) - 53)%Z).
  assert (H0 : JS.pow2 52 * JS.pow2 e0 <= a # b).
  { rewrite <- pow2_add.
    replace (52 + e0)%Z with (Z.log2 a + - (Z.log2 (Z.pos b) + 1))%Z by (unfold e0; lia).
    rewrite pow2_add. unfold JS.pow2 at 2. rewrite Qpower_opp.
    fold (JS.pow2 (Z.log2 (Z.pos b) + 1)).
    pose proof (Z.log2_nonneg a) as Hla. pose proof (Z.log2_nonneg (Z.pos b)) as Hlb.
    rewrite !pow2_Z by lia.
    destruct (Z.log2_spec a Hpos) as [Ha _].
    destruct (Z.log2_spec (Z.pos b) eq_refl) as [_ Hb].
    replace (Z.succ (Z.log2 (Z.pos b))) with (Z.log2 (Z.pos b) + 1)%Z in Hb by lia.
    set (PA := (2 ^ Z.log2 a)%Z) in *. set (PB := (2 ^ (Z.log2 (Z.pos b) + 1))%Z) in *.
    assert (HPA : (0 < PA)%Z) by (apply Z.pow_pos_nonneg; lia).
    destruct PB as [|pb|pb] eqn:EPB; try lia.
    unfold Qle, Qmult, Qinv, inject_Z. cbn. nia. }
  pose proof (pow2_pos e0) as He0.
  destruct (Qle_bool (JS.pow2 53) ((a # b) / JS.pow2 e0)) eqn:Hb.
  - apply Qle_bool_iff in Hb.
    assert (Hs : (a # b) / JS.pow2 (e0 + 1) == (a # b) / JS.pow2 e0 * (1 # 2)).
    { rewrite pow2_add. change (JS.pow2 1) with 2. field. lra. }
    change (JS.pow2 53) with (2 * JS.pow2 52) in Hb.
    set (y0 := (a # b) / JS.pow2 e0) in *. set (y1 := (a # b) / JS.pow2 (e0 + 1)) in *.
    set (c := JS.pow2 52) in *. lra.
  - apply Qle_shift_div_l; assumption.
Qed.

(** The rounding error of the quotient is at most 2^-53 of its value. *)
Lemma b64_error (x : Q) :
  (0 < Qnum x)%Z -> Qabs (JS.b64 x - x) * JS.pow2 53 <= x.
Proof.
  intros Hpos. unfold JS.b64. destruct (Qnum x) eqn:En; try lia.
  unfold JS.significand.
  pose proof (exponent_normal x) as Hn. rewrite En in Hn. specialize (Hn eq_refl).
  pose proof (pow2_pos (JS.exponent x)) as HE.
  set (E := JS.pow2 (JS.exponent x)) in *.
  pose proof (rne_near (x / E)) as Hr.
  assert (Hx : x == x / E * E) by (field; lra).
  set (y := x / E) in *. clearbody y.
  set (m := inject_Z (JS.rne y)) in *. clearbody m. clearbody E.
  apply Qabs_Qle_condition in Hr. destruct Hr as [Hr1 Hr2].
  assert (H1 : (m - y) * E <= (1 # 2) * E) by (apply Qmult_le_compat_r; lra).
  assert (H2 : (- (1 # 2)) * E <= (m - y) * E) by (apply Qmult_le_compat_r; lra).
  assert (H3 : JS.pow2 52 * E <= y * E) by (apply Qmult_le_compat_r; lra).
  assert (Hd : Qabs (m * E - x) <= (1 # 2) * E).
  { apply Qabs_Qle_condition. split; lra. }
  change (JS.pow2 53) with (2 * JS.pow2 52).
  pose proof (pow2_pos 52) as Hc.
  set (c := JS.pow2 52) in *. clearbody c.
  assert (H4 : Qabs (m * E - x) * (2 * c) <= (1 # 2) * E * (2 * c)).
  { apply Qmult_le_compat_r; lra. }
  lra.
Qed.

Lemma rounds_to_tenths_Z (n k : Z) :
  rounds_to_tenths (inject_Z n / 1000) k <-> (100 * k <= n + 50 /\ n <= 100 * k + 50)%Z.
Proof.
  unfold rounds_to_tenths.
  change (inject_Z k / 10) with (inject_Z k * (1 # 10)).
  change (inject_Z n / 1000) with (inject_Z n * (1 # 1000)).
  rewrite Qabs_Qle_condition. rewrite !Zle_Qle.
  rewrite !inject_Z_plus, !inject_Z_mult.
  change (inject_Z 100) with 100. change (inject_Z 50) with 50.
  split; intros [H1 H2]; split; lra.
Qed.

Lemma formatNumber_thousands (n : Z) :
  (1000 <= n < 2 ^ 53)%Z ->
  exists k : Z,
    (0 <= k)%Z /\ rounds_to_tenths (inject_Z n / 1000) k
    /\ formatNumber n = (one_decimal k ++ "k")%string.
Proof.
  intros [Hlo Hhi]. unfold formatNumber.
  replace (1000 <=? n)%Z with true by (symmetry; apply Z.leb_le; exact Hlo).
  unfold JS.toFixed1, JS.div.
  set (x := inject_Z n / 1000). set (F := JS.b64 x).
  exists (Qfloor (F * 10 + (1 # 2))).
  assert (Hx : x * 1000 == inject_Z n) by (unfold x; field).
  assert (Hnum : (0 < Qnum x)%Z) by (unfold x; cbn; lia).
  pose proof (b64_error x Hnum) as Herr. fold F in Herr.
  change (JS.pow2 53) with (9007199254740992 # 1) in Herr.
  assert (HnQ : inject_Z n < 9007199254740992) by
    (change 9007199254740992 with (inject_Z (2 ^ 53)); rewrite <- Zlt_Qlt; exact Hhi).
  assert (HnQ' : 1000 <= inject_Z n) by
    (change 1000 with (inject_Z 1000); rewrite <- Zle_Qle; exact Hlo).
  pose proof (Qabs_nonneg (F - x)) as HA0.
  assert (HA : Qabs (F - x) < 1 # 1000) by lra.
  apply Qabs_Qlt_condition in HA. destruct HA as [HA1 HA2].
  pose proof (Qfloor_le (F * 10 + (1 # 2))) as Hk1.
  pose proof (Qlt_floor (F * 10 + (1 # 2))) as Hk2.
  rewrite inject_Z_plus in Hk2. change (inject_Z 1) with 1 in Hk2.
  set (k := Qfloor (F * 10 + (1 # 2))) in *.
  assert (Hz1 : (100 * k < n + 51)%Z).
  { rewrite Zlt_Qlt, inject_Z_plus, inject_Z_mult.
    change (inject_Z 100) with 100. change (inject_Z 51) with 51. lra. }
  assert (Hz2 : (n < 100 * k + 51)%Z).
  { rewrite Zlt_Qlt, inject_Z_plus, inject_Z_mult.
    change (inject_Z 100) with 100. change (inject_Z 51) with 51. lra. }
  split; [lia|]. split; [|reflexivity].
  apply rounds_to_tenths_Z. lia.
Qed.
Lemma quotient_error (n : Z) :
  (1000 <= n < 2 ^ 53)%Z ->
  Qabs (JS.div (inject_Z n) 1000 - inject_Z n / 1000) < 1 # 1000.
Proof.
  intros [Hlo Hhi]. unfold JS.div.
  set (x := inject_Z n / 1000). set (F := JS.b64 x).
  assert (Hx : x * 1000 == inject_Z n) by (unfold x; field).
  assert (Hnum : (0 < Qnum x)%Z) by (unfold x; cbn; lia).
  pose proof (b64_error x Hnum) as Herr. fold F in Herr.
  change (JS.pow2 53) with (9007199254740992 # 1) in Herr.
  assert (HnQ : inject_Z n < 9007199254740992) by
    (change 9007199254740992 with (inject_Z (2 ^ 53)); rewrite <- Zlt_Qlt; exact Hhi).
  pose proof (Qabs_nonneg (F - x)) as HA0.
  lra.
Qed.

Lemma Qfloor_unique (y : Q) (m : Z) :
  inject_Z m <= y -> y < inject_Z m + 1 -> Qfloor y = m.
Proof.
  intros H1 H2.
  pose proof (Qfloor_le y) as Hlo. pose proof (Qlt_floor y) as Hhi.
  rewrite inject_Z_plus in Hhi. change (inject_Z 1) with 1 in Hhi.
  assert (A : (Qfloor y < m + 1)%Z).
  { rewrite Zlt_Qlt, inject_Z_plus. change (inject_Z 1) with 1. lra. }
  assert (B : (m < Qfloor y + 1)%Z).
  { rewrite Zlt_Qlt, inject_Z_plus. change (inject_Z 1) with 1. lra. }
  lia.
Qed.

(** At an exact tie the side of the binary64 quotient decides. *)
Lemma formatNumber_tie (n : Z) :
  (1000 <= n < 2 ^ 53)%Z -> (n mod 100 = 50)%Z ->
  formatNumber n
  = (one_decimal (if Qlt_le_dec (JS.div (inject_Z n) 1000) (inject_Z n / 1000)
                  then n / 100 else n / 100 + 1) ++ "k")%string.
Proof.
  intros Hn Ht. pose proof (quotient_error n Hn) as He.
  destruct Hn as [Hlo Hhi]. unfold formatNumber.
  replace (1000 <=? n)%Z with true by (symmetry; apply Z.leb_le; exact Hlo).
  set (F := JS.div (inject_Z n) 1000) in *.
  assert (Hk : Qfloor (F * 10 + (1 # 2))
               = if Qlt_le_dec F (inject_Z n / 1000) then (n / 100)%Z else (n / 100 + 1)%Z).
  { pose proof (Z.div_mod n 100 ltac:(lia)) as Hd. rewrite Ht in Hd.
    set (m := (n / 100)%Z) in *.
    assert (Hx : inject_Z n == 100 * inject_Z m + 50).
    { rewrite Hd at 1. rewrite inject_Z_plus, inject_Z_mult. reflexivity. }
    change (inject_Z n / 1000) with (inject_Z n * (1 # 1000)) in *.
    apply Qabs_Qlt_condition in He. destruct He as [He1 He2].
    destruct (Qlt_le_dec F (inject_Z n * (1 # 1000))) as [Hlt|Hge].
    - apply Qfloor_unique; lra.
    - apply Qfloor_unique; rewrite inject_Z_plus; change (inject_Z 1) with 1; lra. }
  unfold JS.toFixed1. cbv zeta. rewrite Hk. reflexivity.
Qed.
End Binary64.

(** C8, as amended.  For a star count [n] that a Number holds as a safe
    integer ([0 <= n < 2^53]): below 1000 the label is the decimal numeral
    of [n]; from 1000 on it is a tenth nearest to [n / 1000], printed with
    one digit after the point and followed by [k].  That tenth is
    [(n + 50) / 100] when the last two digits of [n] are not 50; at such a
    tie it is the lower neighbour when the binary64 quotient [n / 1000]
    falls below the exact quotient and the upper neighbour otherwise. *)
Theorem formatNumber_label (n : Z) :
  0 <= n < 2 ^ 53 ->
  (1000 <= n ->
   exists k : Z,
     0 <= k /\ rounds_to_tenths (inject_Z n / 1000) k
     /\ formatNumber n = (one_decimal k ++ "k")%string
     /\ (n mod 100 <> 50 -> k = (n + 50) / 100)
     /\ (n mod 100 = 50 ->
         k = if Qlt_le_dec (JS.div (inject_Z n) 1000) (inject_Z n / 1000)
             then n / 100 else n / 100 + 1))
  /\ (n < 1000 ->
      formatNumber n = JS.decimal n /\ parse_decimal (formatNumber n) = Some n).
Proof.
  intros [H0 Hmax]. split.
  - intros Hk.
    pose proof (Z.div_mod n 100 ltac:(lia)) as Hd.
    pose proof (Z.mod_pos_bound n 100 ltac:(lia)) as Hm.
    destruct (Z.eq_dec (n mod 100) 50) as [Ht|Ht].
    + exists (if Qlt_le_dec (JS.div (inject_Z n) 1000) (inject_Z n / 1000)
              then n / 100 else n / 100 + 1).
      assert (Hq : 10 <= n / 100) by (apply Z.div_le_lower_bound; lia).
      split; [destruct (Qlt_le_dec _ _); lia|].
      split; [apply rounds_to_tenths_Z; destruct (Qlt_le_dec _ _); lia|].
      split; [apply formatNumber_tie; [lia|exact Ht]|].
      split; [intros Hc; contradiction|intros _; reflexivity].
    + destruct (formatNumber_thousands n ltac:(lia)) as (k & Hk0 & Hr & Hl).
      exists k. split; [exact Hk0|]. split; [exact Hr|]. split; [exact Hl|].
      split; [|intros Hc; contradiction].
      intros _. apply rounds_to_tenths_Z in Hr.
      apply Z.div_unique with (r := n + 50 - 100 * k); lia.
  - intros Hlt. unfold formatNumber.
    replace (1000 <=? n) with false by (symmetry; apply Z.leb_gt; exact Hlt).
    split; [reflexivity|]. now apply parse_decimal_decimal.
Qed.

Lemma formatNumber_label_witness :
  0 <= 1150 < 2 ^ 53
  /\ (1000 <= 1150 ->
      exists k : Z,
        0 <= k /\ rounds_to_tenths (inject_Z 1150 / 1000) k
        /\ formatNumber 1150 = (one_decimal k ++ "k")%string
        /\ (1150 mod 100 <> 50 -> k = (1150 + 50) / 100)
        /\ (1150 mod 100 = 50 ->
            k = if Qlt_le_dec (JS.div (inject_Z 1150) 1000) (inject_Z 1150 / 1000)
                then 1150 / 100 else 1150 / 100 + 1)).
Proof.
  assert (H : 0 <= 1150 < 2 ^ 53) by (split; [lia|reflexivity]).
  split; [exact H|]. exact (proj1 (formatNumber_label 1150 H)).
Defined.

(** C8 as stated fails.  With ordinary rounding 1150 is [1.2k]; the code
    prints [1.1k], and no rule for the halves fits its outputs at 1150, 1250
    and 1450.  And beyond the safe integers the rounding of the quotient
    grows past the distance to a tie: at 36028797018964152, which a Number
    holds exactly, the label ends in [.1k] although [.152] is nearer to
    [.2]. *)
Lemma formatNumber_counterexample :
  formatNumber 1150 = "1.1k"%string /\ rounded_label 1150 = "1.2k"%string
  /\ formatNumber 1250 = "1.3k"%string /\ formatNumber 1450 = "1.4k"%string
  /\ ~ label_is_rounded /\ ~ label_is_nearest.
Proof.
  assert (E : formatNumber 1150 = "1.1k"%string) by (vm_compute; reflexivity).
  split; [exact E|]. split; [vm_compute; reflexivity|].
  split; [vm_compute; reflexivity|]. split; [vm_compute; reflexivity|]. split.
  - intros H. specialize (H 1150 ltac:(lia)). rewrite E in H.
    vm_compute in H. discriminate H.
  - intros H.
    assert (Hx : holds_exactly 36028797018964152)
      by (unfold holds_exactly, Qeq; vm_compute; reflexivity).
    destruct (H 36028797018964152 ltac:(lia) Hx) as (k & Hr & Hl).
    apply rounds_to_tenths_Z in Hr.
    assert (Ek : k = 360287970189642) by lia. subst k.
    vm_compute in Hl. discriminate Hl.
Qed.

(** Away from the ties the label is the usual rounding: for
    [1000 <= n < 2^53] whose last two digits are not 50, it is
    [(n + 50) / 100] tenths. *)
Theorem formatNumber_off_ties (n : Z) :
  1000 <= n < 2 ^ 53 -> n mod 100 <> 50 ->
  formatNumber n = (one_decimal ((n + 50) / 100) ++ "k")%string.
Proof.
  intros Hn Htie.
  destruct (formatNumber_thousands n Hn) as (k & Hk & Hr & ->).
  apply rounds_to_tenths_Z in Hr.
  replace ((n + 50) / 100) with k; [reflexivity|].
  pose proof (Z.div_mod n 100 ltac:(lia)) as Hd.
  pose proof (Z.mod_pos_bound n 100 ltac:(lia)) as Hm.
  apply Z.div_unique with (r := n + 50 - 100 * k); lia.
Qed.

Lemma formatNumber_off_ties_witness :
  1000 <= 1234 < 2 ^ 53 /\ 1234 mod 100 <> 50
  /\ formatNumber 1234 = (one_decimal ((1234 + 50) / 100) ++ "k")%string.
Proof.
  assert (H1 : 1000 <= 1234 < 2 ^ 53) by (split; [lia|reflexivity]).
  assert (H2 : 1234 mod 100 <> 50) by (vm_compute; discriminate).
  split; [exact H1|]. split; [exact H2|].
  exact (formatNumber_off_ties 1234 H1 H2).
Defined.

(** ** The ticker of js/trending-ticker.js *)

Section TickerFacts.
Import Ticker.
Local Open Scope Q_scope.


Lemma Qle_bool_false (x y : Q) : Qle_bool x y = false -> y < x.
Proof.
intros H. apply Qnot_le_lt. intros Hc. apply Qle_bool_iff in Hc. congruence.
Qed.

Ltac qbool :=
repeat match goal with
| H : Qle_bool _ _ = true |- _ => apply Qle_bool_iff in H
| H : Qle_bool _ _ = false |- _ => apply Qle_bool_false in H
end.

(** Case analysis on the branches of one call of [animate]. *)
Ltac animate_cases w :=
destruct w as [rp te aid ps vis dir pos lt html tr fr iss tm fe ob ck co];
unfold animate, pauseTicker, setTimeout, requestAnimationFrame; cbn;
destruct te, vis; cbn; try destruct ps; cbn;
repeat match goal with
| |- context [if Qle_bool ?a ?b then _ else _] => destruct (Qle_bool a b) eqn:?; cbn
end; qbool.

Lemma animate_dir lay t w : dir_ok w -> dir_ok (animate lay t w).
Proof. unfold dir_ok. animate_cases w; cbn; auto. Qed.

Lemma animate_timers lay t w : timers_ok w -> timers_ok (animate lay t w).
Proof.
unfold timers_ok. animate_cases w; cbn; auto;
  destruct tm as [|? [|? ?]]; cbn; intros; try congruence; auto.
Qed.

Lemma animate_pending lay t w : pending_ok (animate lay t w).
Proof.
unfold pending_ok. animate_cases w; cbn; intros; try congruence;
  destruct fr; discriminate.
Qed.

Lemma animate_inv lay t w : dir_ok w -> timers_ok w -> Inv (animate lay t w).
Proof.
intros Hd Ht. split.
- now apply animate_dir.
- now apply animate_timers.
- apply animate_pending.
Qed.

Ltac inv_fields :=
split; unfold dir_ok, timers_ok, pending_ok in *; cbn in *; auto;
try (intros _; match goal with |- ?l ++ _ <> [] => destruct l; discriminate end).

Lemma step_inv lay w o w' : Inv w -> step lay w o = Some w' -> Inv w'.
Proof.
intros [Hd Ht Hp] Hs. destruct o as [now ev]. unfold step in Hs.
destruct (Qle_bool (clock w) now); [|discriminate].
destruct ev as [t| |b|r].
- destruct (frames (set_clock now w)) as [|h rest] eqn:Hf; [discriminate|].
  injection Hs as <-. apply animate_inv; destruct w;
    unfold dir_ok, timers_ok in *; cbn in *; auto.
- destruct w as [rp te aid ps vis dir pos lt html tr fr iss tm fe ob ck co].
  unfold timers_ok in Ht. cbn in *.
  destruct tm as [|due [|? ?]]; try discriminate; try contradiction.
  destruct (Qle_bool due now); [|discriminate].
  injection Hs as <-. inv_fields.
- destruct (observing (set_clock now w)); [|discriminate].
  injection Hs as <-.
  destruct w as [rp te aid ps vis dir pos lt html tr fr iss tm fe ob ck co].
  unfold observerCallback. cbn in *.
  destruct b, aid; cbn; inv_fields.
- destruct (fetching (set_clock now w)); [|discriminate].
  injection Hs as <-.
  destruct w as [rp te aid ps vis dir pos lt html tr fr iss tm fe ob ck co].
  destruct r as [|[|] [|[data|]]]; cbn; try (inv_fields; fail).
  unfold onData, renderTicker. cbn. destruct (sortRepos data); cbn; inv_fields.
Qed.

Lemma initTicker_inv found : Inv (initTicker found).
Proof.
destruct found; (split; cbn; unfold dir_ok, timers_ok, pending_ok; cbn;
  auto; try congruence).
Qed.

Lemma run_inv os : forall w w', Inv w -> run w os = Some w' -> Inv w'.
Proof.
induction os as [|[lay o] os IH]; cbn; intros w w' HI Hr.
- now injection Hr as <-.
- destruct (step lay w o) as [w1|] eqn:Hs; [|discriminate].
  eapply IH; [|exact Hr]. eapply step_inv; eauto.
Qed.


Lemma step_tickerElement lay w o w' :
step lay w o = Some w' -> tickerElement w' = tickerElement w.
Proof.
intros Hs. destruct o as [now ev]. unfold step in Hs.
destruct (Qle_bool (clock w) now); [|discriminate].
destruct w as [rp te aid ps vis dir pos lt html tr fr iss tm fe ob ck co].
destruct ev as [t| |b|r]; cbn in Hs.
- destruct fr; [discriminate|]. injection Hs as <-.
  unfold animate, pauseTicker, setTimeout, requestAnimationFrame; cbn.
  destruct te, vis; cbn; try destruct ps; cbn;
    repeat match goal with
    | |- context [if Qle_bool ?a ?b then _ else _] => destruct (Qle_bool a b); cbn
    end; reflexivity.
- destruct tm; [discriminate|]. destruct (Qle_bool _ _); [|discriminate].
  now injection Hs as <-.
- destruct ob; [|discriminate]. injection Hs as <-.
  unfold observerCallback. cbn. destruct b, aid; reflexivity.
- destruct fe; [|discriminate]. injection Hs as <-.
  destruct r as [|[|] [|[data|]]]; cbn; try reflexivity.
  unfold onData, renderTicker. cbn. destruct (sortRepos data); reflexivity.
Qed.

Lemma run_tickerElement os :
forall w w', run w os = Some w' -> tickerElement w' = tickerElement w.
Proof.
induction os as [|[lay o] os IH]; cbn; intros w w' Hr.
- now injection Hr as <-.
- destruct (step lay w o) as [w1|] eqn:Hs; [|discriminate].
  rewrite (IH _ _ Hr). eapply step_tickerElement; eauto.
Qed.


Lemma animate_direction_change lay t w :
direction (animate lay t w) <> direction w ->
tickerElement w = true /\ isVisible w = true /\ isPaused w = false
/\ reaches lay (advanced t w).
Proof.
unfold reaches, advanced, lowerBound.
animate_cases w; cbn; intros H; try congruence; repeat split; auto.
Qed.


























(** Whatever makes the fetch fail (network error, status not ok, invalid
  JSON, a value that is no array), the handler shows the fallback notice
  and logs one error, requests no frame itself, and the fetch is never
  settled again. *)
Theorem failed_fetch_fallback lay w now r w' :
is_failure r = true -> step lay w (now, Settle r) = Some w' ->
innerHTML w' = ErrorNotice /\ fetching w' = false
/\ issued w' = issued w /\ frames w' = frames w
/\ List.length (console w') = S (List.length (console w))
/\ forall now' r', step lay w' (now', Settle r') = None.
Proof.
intros Hf Hs. unfold step in Hs.
destruct (Qle_bool (clock w) now); [|discriminate].
destruct w as [rp te aid ps vis dir pos lt html tr fr iss tm fe ob ck co].
cbn in *. destruct fe; [|discriminate]. injection Hs as <-.
destruct r as [|[|] [|[data|]]]; cbn in *; try discriminate;
  (repeat split; [rewrite length_app; cbn; lia
                 |intros now' r'; unfold step; cbn; now destruct (Qle_bool now now')]).
Qed.

(** C4 at a failing input: the observer reports the container visible, then
  the fetch fails.  The notice is shown, yet three animation frames have
  been requested, one is pending, and the notice is being moved. *)
Lemma failed_fetch_still_animates :
let os := [(0, Intersect true); (50, Settle NetworkError);
           (66, Frame 66); (82, Frame 82)] in
run (initTicker true) (steady wide os) = Some (world_after wide os)
/\ innerHTML (world_after wide os) = ErrorNotice
/\ issued (world_after wide os) = 3%nat
/\ frames (world_after wide os) = [3%nat]
/\ transform (world_after wide os) = Some (currentPosition (world_after wide os))
/\ currentPosition (world_after wide os) < 0.
Proof.
cbv zeta. repeat match goal with |- _ /\ _ => split end; vm_compute; reflexivity.
Qed.

(** C10.  When the fetch delivers an empty array, the handler leaves the
  markup and the transform as they were (no card, no notice), and still
  requests an animation frame; every later frame can run, leaves the markup
  alone and, while the container is visible, requests the next one. *)
Theorem empty_fixture_animates
  (lay : Layout) (os : list (Layout * (Q * Event))) (w : World) (now : Q) :
run (initTicker true) os = Some w ->
fetching w = true -> clock w <= now ->
exists w',
  step lay w (now, loaded []) = Some w'
  /\ innerHTML w' = innerHTML w /\ transform w' = transform w
  /\ repos w' = []
  /\ issued w' = S (issued w) /\ animationId w' = Some (S (issued w))
  /\ frames w' = frames w ++ [S (issued w)]
  /\ forall lay' now' t, clock w' <= now' ->
       exists w'', step lay' w' (now', Frame t) = Some w''
         /\ innerHTML w'' = innerHTML w
         /\ (isVisible w' = true -> frames w'' <> [] /\ issued w'' = S (issued w')).
Proof.
intros Hrun Hf Hc.
pose proof (run_tickerElement os _ _ Hrun) as He. cbn in He.
apply Qle_bool_iff in Hc.
destruct w as [rp te aid ps vis dir pos lt html tr fr iss tm fe ob ck co].
cbn in *. subst. unfold step, loaded. cbn. rewrite Hc. cbn.
eexists. split; [reflexivity|]. cbn. repeat split.
intros lay' now' t Hc'. apply Qle_bool_iff in Hc'. unfold step. cbn. rewrite Hc'.
destruct (fr ++ [S iss]) as [|h rest] eqn:Efr; [destruct fr; discriminate|].
eexists. split; [reflexivity|].
unfold animate, pauseTicker, setTimeout, requestAnimationFrame. cbn.
destruct vis; cbn; [|split; [reflexivity|discriminate]].
destruct ps; cbn;
  repeat match goal with
  | |- context [if Qle_bool ?a ?b then _ else _] => destruct (Qle_bool a b); cbn
  end; (split; [reflexivity|]; intros _; split; [destruct rest; discriminate|reflexivity]).
Qed.

Lemma empty_fixture_animates_witness :
run (initTicker true) [] = Some (initTicker true)
/\ fetching (initTicker true) = true /\ clock (initTicker true) <= 5
/\ exists w',
     step wide (initTicker true) (5, loaded []) = Some w'
     /\ innerHTML w' = innerHTML (initTicker true).
Proof.
assert (H1 : run (initTicker true) [] = Some (initTicker true)) by reflexivity.
assert (H2 : fetching (initTicker true) = true) by reflexivity.
assert (H3 : clock (initTicker true) <= 5) by (vm_compute; discriminate).
split; [exact H1|]. split; [exact H2|]. split; [exact H3|].
destruct (empty_fixture_animates wide [] (initTicker true) 5 H1 H2 H3)
  as (w' & Hs & Hi & _).
exists w'. split; [exact Hs|exact Hi].
Defined.


Lemma failed_fetch_fallback_witness :
is_failure (Response false NotJson) = true
/\ step wide (initTicker true) (40, Settle (Response false NotJson))
   = Some (world_after wide [(40, Settle (Response false NotJson))])
/\ innerHTML (world_after wide [(40, Settle (Response false NotJson))]) = ErrorNotice.
Proof.
assert (H1 : is_failure (Response false NotJson) = true) by reflexivity.
assert (H2 : step wide (initTicker true) (40, Settle (Response false NotJson))
   = Some (world_after wide [(40, Settle (Response false NotJson))]))
  by (vm_compute; reflexivity).
split; [exact H1|]. split; [exact H2|].
exact (proj1 (failed_fetch_fallback wide _ _ _ _ H1 H2)).
Defined.

(** In every world the ticker can reach, whatever the layouts on the way,
  the direction is -1 or 1, at most one dwell time-out is pending and it is
  pending exactly while the ticker is paused, and a recorded [animationId]
  has its callback queued. *)
Theorem ticker_invariants (found : bool) (os : list (Layout * (Q * Event))) (w : World) :
run (initTicker found) os = Some w ->
(direction w = -1 \/ direction w = 1)
/\ (List.length (timers w) <= 1)%nat
/\ (isPaused w = true <-> timers w <> [])
/\ (animationId w <> None -> frames w <> []).
Proof.
intros Hrun.
pose proof (run_inv os _ _ (initTicker_inv found) Hrun) as [Hd Ht Hp].
split; [exact Hd|]. unfold timers_ok in Ht.
destruct (timers w) as [|d [|d' rest]]; cbn; [| |contradiction];
  (split; [lia|]); (split; [|exact Hp]); split; intros H; congruence.
Qed.

Lemma ticker_invariants_witness :
run (initTicker true) (steady wide [(0, loaded [demo_repo]); (20000, Frame 20000)])
= Some (world_after wide [(0, loaded [demo_repo]); (20000, Frame 20000)])
/\ (direction (world_after wide [(0, loaded [demo_repo]); (20000, Frame 20000)]) = -1
    \/ direction (world_after wide [(0, loaded [demo_repo]); (20000, Frame 20000)]) = 1).
Proof.
assert (H : run (initTicker true) (steady wide [(0, loaded [demo_repo]); (20000, Frame 20000)])
            = Some (world_after wide [(0, loaded [demo_repo]); (20000, Frame 20000)]))
  by (vm_compute; reflexivity).
split; [exact H|].
exact (proj1 (ticker_invariants true _ _ H)).
Defined.

(** Without the container element the script is inert: it neither observes
  nor fetches, so the browser has nothing to deliver to it, ever. *)
Theorem missing_container_inert (lay : Layout) (o : Q * Event) :
step lay (initTicker false) o = None
/\ observing (initTicker false) = false /\ fetching (initTicker false) = false
/\ issued (initTicker false) = O /\ innerHTML (initTicker false) = Untouched.
Proof.
split; [|repeat split].
destruct o as [now ev]. unfold step. cbn.
destruct (Qle_bool 0 now); [|reflexivity].
destruct ev; reflexivity.
Qed.

Lemma colors_unlisted (lang : string) :
~ In lang ["JavaScript"; "TypeScript"; "Python"; "Go"; "Rust"; "Java"; "C++"; "Ruby";
           "PHP"; "Shell"]%string ->
colors !! lang = None.
Proof.
intros Hn. unfold colors. cbn [list_to_map foldr].
repeat (rewrite lookup_insert_ne; [|intros E; apply Hn; rewrite <- E; cbn; tauto]).
apply lookup_empty.
Qed.

(** A language that is not in the colour table gets the neutral grey,
  unless it is the name of an inherited member, such as [constructor]:
  the lookup finds that member, which is returned instead of a colour. *)
Theorem getLangColor_fallback (lang : string) :
~ In lang ["JavaScript"; "TypeScript"; "Python"; "Go"; "Rust"; "Java"; "C++"; "Ruby";
           "PHP"; "Shell"]%string ->
getLangColor lang
= if existsb (String.eqb lang) JS.objectPrototype then Inherited lang else Css "#8b8b8b".
Proof.
intros Hn. unfold getLangColor.
destruct (String.eqb lang "TypeScript") eqn:E.
- apply String.eqb_eq in E. exfalso. apply Hn. rewrite E. cbn. tauto.
- now rewrite colors_unlisted.
Qed.

Lemma getLangColor_fallback_witness :
~ In "Haskell"%string
    ["JavaScript"; "TypeScript"; "Python"; "Go"; "Rust"; "Java"; "C++"; "Ruby";
     "PHP"; "Shell"]%string
/\ getLangColor "Haskell" = Css "#8b8b8b".
Proof.
assert (H : ~ In "Haskell"%string
    ["JavaScript"; "TypeScript"; "Python"; "Go"; "Rust"; "Java"; "C++"; "Ruby";
     "PHP"; "Shell"]%string).
{ cbn. intros H. repeat (destruct H as [H|H]; [discriminate H|]). exact H. }
split; [exact H|]. exact (getLangColor_fallback "Haskell" H).
Defined.

(** Rendering a non-empty fixture writes every card twice and resets the
  displayed offset to 0, but not the position the loop works with: the two
  differ until the next unpaused tick writes the transform again. *)
Theorem render_keeps_position (lay : Layout) (w w' : World) (now : Q) (data : list Repo) :
data <> [] ->
step lay w (now, loaded data) = Some w' ->
transform w' = Some 0
/\ currentPosition w' = currentPosition w
/\ direction w' = direction w /\ isPaused w' = isPaused w
/\ exists items,
     innerHTML w' = Items (items ++ items)
     /\ List.length items = List.length data
     /\ items = List.map ticker_item (repos w').
Proof.
intros Hne Hs. unfold step in Hs.
destruct (Qle_bool (clock w) now); [|discriminate].
destruct w as [rp te aid ps vis dir pos lt html tr fr iss tm fe ob ck co].
cbn in Hs. destruct fe; [|discriminate]. injection Hs as <-.
unfold onData, renderTicker. cbn.
pose proof (sort_perm by_score_desc data) as HP. fold (sortRepos data) in HP.
destruct (sortRepos data) as [|r rs] eqn:E.
- apply Permutation_nil in HP. contradiction.
- cbn. repeat split. exists (List.map ticker_item (r :: rs)).
  split; [reflexivity|]. split; [|reflexivity].
  rewrite length_map. apply Permutation_length in HP. exact HP.
Qed.

Lemma render_keeps_position_witness :
[demo_repo] <> []
/\ step wide (initTicker true) (0, loaded [demo_repo])
   = Some (world_after wide [(0, loaded [demo_repo])])
/\ transform (world_after wide [(0, loaded [demo_repo])]) = Some 0.
Proof.
assert (H1 : [demo_repo] <> []) by discriminate.
assert (H2 : step wide (initTicker true) (0, loaded [demo_repo])
   = Some (world_after wide [(0, loaded [demo_repo])])) by (vm_compute; reflexivity).
split; [exact H1|]. split; [exact H2|].
exact (proj1 (render_keeps_position wide _ _ _ _ H1 H2)).
Defined.

End TickerFacts.


(** ** The older ticker script *)

Section LegacyFacts.
Import Legacy.
Local Open Scope Q_scope.

(** C2 at a failing input, in the older script.  The first tick after the
    data arrived takes the position past the bound 0 and it stays there,
    4/5 pixel out, through the dwell; the frames of the dwell do not update
    the time of the last frame, so the first tick after the time-out moves
    the strip by the speed times 2016 ms, dwell included. *)
Lemma legacy_overshoots_and_jumps :
  let first := [(0, loaded [demo_repo]); (16, Frame 16)] in
  let dwell := first ++ [(32, Frame 32); (1000, Frame 1000);
                         (2016, Timeout); (2032, Frame 2032)] in
  run demo_layout (initTicker true) first = Some (demo_after first)
  /\ isPaused (demo_after first) = true
  /\ currentPosition (demo_after first) == 4 # 5
  /\ currentPosition (demo_after (first ++ [(32, Frame 32); (1000, Frame 1000)])) == 4 # 5
  /\ run demo_layout (initTicker true) dwell = Some (demo_after dwell)
  /\ currentPosition (demo_after dwell)
     == (4 # 5) - TICKER_SPEED * ((2032 - 16) / 1000).
Proof.
  cbv zeta. repeat match goal with |- _ /\ _ => split end; vm_compute; reflexivity.
Qed.

Ltac legacy_world w :=
  destruct w as [rp te aid ps dir pos cw lt html sw tr fr iss tm fe un ck co].






Lemma legacy_quiet_step lay w o w' : quiet w -> step lay w o = Some w' -> quiet w'.
Proof.
  intros (H1 & H2 & H3 & H4 & H5 & H6) Hs. destruct o as [now ev].
  unfold step in Hs. legacy_world w. cbn in *. subst.
  destruct (Qle_bool ck now && negb un); [|discriminate].
  destruct ev; try discriminate. injection Hs as <-. repeat split.
Qed.

Lemma legacy_quiet_run lay os : forall w w', quiet w -> run lay w os = Some w' -> quiet w'.
Proof.
  induction os as [|o os IH]; cbn [run]; intros w w' Hq Hr.
  - now injection Hr as <-.
  - destruct (step lay w o) as [w1|] eqn:E; [|discriminate].
    apply (IH w1 w'); auto. eapply legacy_quiet_step; eauto.
Qed.

(** In the older script, which has no observer, a failed fetch shows the
    notice and no animation frame is ever requested afterwards. *)
Theorem legacy_failed_fetch_never_animates
    (lay : Layout) (now : Q) (r : FetchResult) (os : list (Q * Event)) (w : World) :
  Ticker.is_failure r = true ->
  run lay (initTicker true) ((now, Settle r) :: os) = Some w ->
  issued w = O /\ frames w = [] /\ innerHTML w = ErrorNotice.
Proof.
  intros Hf Hrun. cbn [run] in Hrun.
  destruct (step lay (initTicker true) (now, Settle r)) as [w1|] eqn:E; [|discriminate].
  assert (Hq : quiet w1).
  { unfold step in E. cbn in E. destruct (Qle_bool 0 now && true); [|discriminate].
    injection E as <-.
    destruct r as [|[|] [|[data|]]]; cbn in *; try discriminate; repeat split. }
  destruct (legacy_quiet_run lay os w1 w Hq Hrun) as (H1 & _ & _ & H4 & _ & H6). auto.
Qed.

Lemma legacy_failed_fetch_never_animates_witness :
  Ticker.is_failure NetworkError = true
  /\ run demo_layout (initTicker true) [(50, Settle NetworkError); (60, Unload)]
     = Some (demo_after [(50, Settle NetworkError); (60, Unload)])
  /\ issued (demo_after [(50, Settle NetworkError); (60, Unload)]) = O.
Proof.
  assert (H1 : Ticker.is_failure NetworkError = true) by reflexivity.
  assert (H2 : run demo_layout (initTicker true) [(50, Settle NetworkError); (60, Unload)]
     = Some (demo_after [(50, Settle NetworkError); (60, Unload)]))
    by (vm_compute; reflexivity).
  split; [exact H1|]. split; [exact H2|].
  exact (proj1 (legacy_failed_fetch_never_animates demo_layout _ _ _ _ H1 H2)).
Defined.

(** The loop of the older script has one callback, the one in
    [animationId], until the page unloads. *)
Lemma legacy_loop_step lay w o w' :
  loop_ok w -> unloaded w = false -> step lay w o = Some w' ->
  (unloaded w' = false /\ loop_ok w') \/ (unloaded w' = true /\ frames w' = []).
Proof.
  intros [Hl Hf] Hu Hs. destruct o as [now ev]. unfold step in Hs.
  rewrite Hu in Hs. cbn [negb] in Hs. rewrite andb_true_r in Hs.
  destruct (Qle_bool (clock w) now); [|discriminate].
  legacy_world w. unfold loop_ok in *. cbn in *. subst.
  destruct ev as [t| |r|]; cbn in Hs.
  - destruct aid as [h|]; cbn in Hs; [|discriminate]. injection Hs as <-. left.
    unfold animate, setTimeout, requestAnimationFrame. cbn.
    assert (Hfe : fe = false) by (destruct fe; [discriminate (Hf eq_refl)|reflexivity]).
    subst fe.
    destruct ps; cbn;
      repeat match goal with
      | |- context [if Qle_bool ?a ?b then _ else _] => destruct (Qle_bool a b); cbn
      end; (split; [reflexivity|]); (split; [reflexivity|discriminate]).
  - destruct tm as [|due rest]; [discriminate|].
    destruct (Qle_bool due now); [|discriminate]. injection Hs as <-. left.
    cbn. auto.
  - destruct fe; [|discriminate]. injection Hs as <-. left.
    rewrite (Hf eq_refl).
    destruct r as [|[|] [|[data|]]]; cbn; try (repeat split; auto; discriminate).
    unfold onData, renderTicker, startAnimation, requestAnimationFrame. cbn.
    destruct (sortRepos data); cbn; repeat split; discriminate.
  - injection Hs as <-. right. split; [reflexivity|].
    destruct aid as [h|]; cbn; [|reflexivity]. now rewrite Nat.eqb_refl.
Qed.

Lemma legacy_loop_run lay os :
  forall w w', loop_ok w -> unloaded w = false -> run lay w os = Some w' ->
               (unloaded w' = false /\ loop_ok w') \/ (unloaded w' = true /\ frames w' = []).
Proof.
  induction os as [|o os IH]; cbn [run]; intros w w' Hl Hu Hr.
  - injection Hr as <-. auto.
  - destruct (step lay w o) as [w1|] eqn:E; [|discriminate].
    destruct (legacy_loop_step lay w o w1 Hl Hu E) as [[Hu1 Hl1]|[Hu1 Hf1]].
    + eapply IH; eauto.
    + destruct os as [|o' os']; cbn [run] in Hr.
      * injection Hr as <-. auto.
      * unfold step in Hr. destruct o' as [now' ev']. rewrite Hu1 in Hr.
        rewrite andb_false_r in Hr. discriminate.
Qed.

(** When the page unloads, the older script cancels the one pending
    [animate] callback, so none runs afterwards; a dwell time-out that is
    pending stays in the queue. *)
Theorem legacy_unload_cancels
    (lay : Layout) (os : list (Q * Event)) (w w' : World) (now : Q) :
  run lay (initTicker true) os = Some w ->
  step lay w (now, Unload) = Some w' ->
  frames w' = [] /\ timers w' = timers w /\ forall o, step lay w' o = None.
Proof.
  intros Hrun Hs.
  assert (H0 : loop_ok (initTicker true)) by (split; reflexivity).
  destruct (legacy_loop_run lay os _ _ H0 eq_refl Hrun) as [[Hu Hl]|[Hu _]].
  - destruct (legacy_loop_step lay w _ w' Hl Hu Hs) as [[Hu' _]|[Hu' Hf']].
    + unfold step in Hs. legacy_world w. cbn in *.
      destruct (Qle_bool ck now && negb un); [|discriminate].
      injection Hs as <-. discriminate Hu'.
    + split; [exact Hf'|]. split.
      * unfold step in Hs. legacy_world w. cbn in *.
        destruct (Qle_bool ck now && negb un); [|discriminate].
        injection Hs as <-. unfold onUnload, cancelAnimationFrame. cbn.
        destruct aid; reflexivity.
      * intros [now' ev']. unfold step. rewrite Hu'. now rewrite andb_false_r.
  - unfold step in Hs. rewrite Hu in Hs. rewrite andb_false_r in Hs. discriminate.
Qed.

Lemma legacy_unload_cancels_witness :
  run demo_layout (initTicker true) [(0, loaded [demo_repo]); (16, Frame 16)]
  = Some (demo_after [(0, loaded [demo_repo]); (16, Frame 16)])
  /\ step demo_layout (demo_after [(0, loaded [demo_repo]); (16, Frame 16)]) (20, Unload)
     = Some (demo_after [(0, loaded [demo_repo]); (16, Frame 16); (20, Unload)])
  /\ frames (demo_after [(0, loaded [demo_repo]); (16, Frame 16); (20, Unload)]) = [].
Proof.
  assert (H1 : run demo_layout (initTicker true) [(0, loaded [demo_repo]); (16, Frame 16)]
    = Some (demo_after [(0, loaded [demo_repo]); (16, Frame 16)]))
    by (vm_compute; reflexivity).
  assert (H2 : step demo_layout (demo_after [(0, loaded [demo_repo]); (16, Frame 16)])
                 (20, Unload)
     = Some (demo_after [(0, loaded [demo_repo]); (16, Frame 16); (20, Unload)]))
    by (vm_compute; reflexivity).
  split; [exact H1|]. split; [exact H2|].
  exact (proj1 (legacy_unload_cancels demo_layout _ _ _ _ H1 H2)).
Defined.
End LegacyFacts.

(** ** The visual QC suites *)

Section QCFacts.
Import QC.
Local Open Scope string_scope.

Lemma visit_cases (site : Site) (shot : string -> string) (done : string)
      (pg : NavEntry) (s : Session) :
  let r := visit site shot done pg s in
  clicked (snd r) = (clicked s ++ [path pg])%list
  /\ if passes site (page s) pg then
       fst r = Passed tt /\ page (snd r) = follow site (path pg)
       /\ log (snd r) = (log s ++ [(label pg ++ done)%string])%list
       /\ shots (snd r)
          = (shots s ++ [("screenshots/nav-" ++ shot (label pg) ++ ".png")%string])%list
     else
       is_passed (fst r) = false /\ log (snd r) = log s /\ shots (snd r) = shots s.
Proof.
  unfold visit, bind, click, expect_toHaveURL, expect_toBeVisible, screenshot,
    console_log, passes. cbn [fst snd page viewport shots log clicked].
  destruct (List.find _ (navLinks (page s))) as [[h [|]]|];
    cbn [fst snd page viewport shots log clicked is_passed]; auto.
  destruct (url_matches (path pg) (location (follow site (path pg))));
    cbn [fst snd page viewport shots log clicked is_passed andb]; auto.
  destruct (existsb (String.eqb (element pg)) (visible (follow site (path pg))));
    cbn [fst snd page viewport shots log clicked is_passed]; auto.
Qed.

(** The trace of the walk over any list of entries, from any session. *)
Lemma walk_trace (site : Site) (shot : string -> string) (done : string)
      (l : list NavEntry) :
  forall s,
    let r := for_of l (visit site shot done) s in
    clicked (snd r) = (clicked s ++ List.map path (attempted site (page s) l))%list
    /\ log (snd r)
       = (log s ++ List.map (fun pg => (label pg ++ done)%string) (verified site (page s) l))%list
    /\ shots (snd r)
       = (shots s ++ List.map (fun pg => ("screenshots/nav-" ++ shot (label pg) ++ ".png")%string)
                       (verified site (page s) l))%list
    /\ is_passed (fst r) = Nat.eqb (List.length (verified site (page s) l)) (List.length l).
Proof.
  induction l as [|pg l IH]; intros s.
  - cbn. rewrite !app_nil_r. auto.
  - cbv zeta. cbn [for_of attempted verified]. unfold bind.
    pose proof (visit_cases site shot done pg s) as Hv. cbv zeta in Hv.
    destruct (visit site shot done pg s) as [o s1]. cbn [fst snd] in Hv.
    destruct Hv as [Hc Hv].
    destruct (passes site (page s) pg).
    + destruct Hv as (-> & Hp & Hl & Hs).
      specialize (IH s1). cbv zeta in IH. rewrite Hp in IH.
      destruct (for_of l (visit site shot done) s1) as [o2 s2]. cbn [fst snd] in *.
      destruct IH as (I1 & I2 & I3 & I4).
      rewrite I1, I2, I3, I4, Hc, Hl, Hs, <- !app_assoc. cbn. auto.
    + destruct Hv as (Hf & Hl & Hs). destruct o; [discriminate|].
      cbn. rewrite Hc, Hl, Hs, !app_nil_r. auto.
Qed.

Lemma beforeEach_run (site : Site) :
  beforeEach site fresh
  = (Passed tt, mkSession (1280, 720)%Z (home site) [] (before_log site) []).
Proof.
  unfold beforeEach, bind, goto_root, collected_errors, before_log, fresh, home.
  cbn [fst snd page viewport shots log clicked].
  destruct (pageErrors (root site (1280, 720)%Z)); reflexivity.
Qed.

(** C5, as amended.  The walk does not go on after a failure: in both
    files it clicks the declared paths in order up to and including the
    first entry that fails (each entry being tried on the page its
    predecessor opened), logs the entries before it as verified, and the
    case passes when all eight are verified; in [visual-qc.spec.js] nothing
    is clicked at all unless the root page has exactly eight nav links. *)
Theorem navigation_stops_at_first_failure (site : Site) :
  let r := run_case (beforeEach site) (SuiteWithHelpers.navigation site) in
  let r' := run_case (beforeEach site) (Suite.navigation site) in
  clicked (snd r) = List.map path (attempted site (home site) SuiteWithHelpers.pages)
  /\ log (snd r)
     = (before_log site
        ++ List.map (fun pg => (label pg ++ " verified")%string)
             (verified site (home site) SuiteWithHelpers.pages))%list
  /\ is_passed (fst r)
     = Nat.eqb (List.length (verified site (home site) SuiteWithHelpers.pages)) 8
  /\ clicked (snd r')
     = (if Nat.eqb (List.length (navLinks (home site))) 8
        then List.map path (attempted site (home site) Suite.pagesToTest) else [])
  /\ is_passed (fst r')
     = Nat.eqb (List.length (navLinks (home site))) 8
       && Nat.eqb (List.length (verified site (home site) Suite.pagesToTest)) 8.
Proof.
  cbv zeta. unfold run_case, bind. rewrite beforeEach_run.
  set (s0 := mkSession (1280, 720)%Z (home site) [] (before_log site) []).
  unfold SuiteWithHelpers.navigation, Suite.navigation, bind, count_navLinks, expect_toBe.
  pose proof (walk_trace site (fun n => n) " verified" SuiteWithHelpers.pages s0) as H1.
  pose proof (walk_trace site (fun n => replace_space (toLowerCase n))
                " loaded and verified" Suite.pagesToTest s0) as H2.
  cbv zeta in H1, H2. cbn [clicked log page s0 app] in H1, H2.
  destruct H1 as (A1 & A2 & _ & A4). destruct H2 as (B1 & _ & _ & B4).
  cbn [page s0 fst snd].
  split; [exact A1|]. split; [exact A2|]. split; [exact A4|].
  destruct (Nat.eqb (List.length (navLinks (home site))) 8);
    cbn [ret throw fst snd clicked is_passed andb s0]; [split; [exact B1|exact B4]|].
  split; reflexivity.
Qed.

(** C5 as stated fails on a site whose reviews page does not show its
    marker: the walk ends at the third entry and the five entries after it
    are never clicked. *)
Lemma navigation_counterexample :
  ~ visits_every_tuple broken_reviews
  /\ clicked (snd (run_case (beforeEach broken_reviews) (Suite.navigation broken_reviews)))
     = ["/"; "/blog/"; "/reviews/"].
Proof.
  assert (E : clicked (snd (run_case (beforeEach broken_reviews)
                              (Suite.navigation broken_reviews)))
     = ["/"; "/blog/"; "/reviews/"]) by (vm_compute; reflexivity).
  split; [|exact E].
  intros H. specialize (H (mkNav "Tools" "/tools.html" "page-tools")).
  rewrite E in H.
  assert (Hin : In (mkNav "Tools" "/tools.html" "page-tools") Suite.pagesToTest)
    by (cbn; tauto).
  destruct (H Hin) as [X|[X|[X|[]]]]; discriminate X.
Qed.

Lemma verified_full (site : Site) (l : list NavEntry) :
  forall cur,
    List.length (verified site cur l) = List.length l ->
    verified site cur l = l /\ attempted site cur l = l.
Proof.
  induction l as [|pg l IH]; intros cur Hlen; [auto|].
  cbn [verified attempted] in *. destruct (passes site cur pg); [|discriminate].
  cbn in Hlen. injection Hlen as Hlen.
  destruct (IH _ Hlen) as [-> ->]. auto.
Qed.

(** A navigation case that passes has clicked all eight declared paths, in
    the declared order, and has written the eight screenshots. *)
Theorem navigation_pass_complete (site : Site) :
  fst (run_case (beforeEach site) (SuiteWithHelpers.navigation site)) = Passed tt ->
  clicked (snd (run_case (beforeEach site) (SuiteWithHelpers.navigation site)))
  = ["/"; "/blog/"; "/reviews/"; "/blog/walkthroughs.html"; "/resources.html";
     "/kai-corner.html"; "/tasks.html"; "/tools.html"]
  /\ shots (snd (run_case (beforeEach site) (SuiteWithHelpers.navigation site)))
     = ["screenshots/nav-home.png"; "screenshots/nav-blog.png";
        "screenshots/nav-reviews.png"; "screenshots/nav-walkthroughs.png";
        "screenshots/nav-resources.png"; "screenshots/nav-kai-corner.png";
        "screenshots/nav-tasks.png"; "screenshots/nav-tools.png"].
Proof.
  unfold run_case, bind. rewrite beforeEach_run.
  set (s0 := mkSession (1280, 720)%Z (home site) [] (before_log site) []).
  unfold SuiteWithHelpers.navigation.
  pose proof (walk_trace site (fun n => n) " verified" SuiteWithHelpers.pages s0) as H.
  cbv zeta in H. cbn [clicked shots page s0 app] in H.
  destruct H as (H1 & _ & H3 & H4).
  intros Hp. rewrite Hp in H4. cbn [is_passed] in H4.
  symmetry in H4. apply Nat.eqb_eq in H4.
  destruct (verified_full site _ _ H4) as [Ev Ea].
  rewrite H1, H3, Ev, Ea. split; reflexivity.
Qed.

Lemma navigation_pass_complete_witness :
  fst (run_case (beforeEach healthy) (SuiteWithHelpers.navigation healthy)) = Passed tt
  /\ clicked (snd (run_case (beforeEach healthy) (SuiteWithHelpers.navigation healthy)))
     = ["/"; "/blog/"; "/reviews/"; "/blog/walkthroughs.html"; "/resources.html";
        "/kai-corner.html"; "/tasks.html"; "/tools.html"].
Proof.
  assert (H : fst (run_case (beforeEach healthy) (SuiteWithHelpers.navigation healthy))
              = Passed tt) by (vm_compute; reflexivity).
  split; [exact H|]. exact (proj1 (navigation_pass_complete healthy H)).
Defined.

(** *** The URL pattern of the walk *)

Lemma match_chars_refl (p : string) : match_chars p p = true.
Proof.
  induction p as [|c p IH]; [reflexivity|].
  cbn. rewrite Ascii.eqb_refl, orb_true_r. exact IH.
Qed.

Lemma substring_all (s : string) : String.substring 0 (String.length s) s = s.
Proof. induction s as [|c s IH]; cbn; [reflexivity|now rewrite IH]. Qed.

Lemma substring_append (a b : string) :
  String.substring (String.length a) (String.length b) (a ++ b) = b.
Proof. induction a as [|c a IH]; cbn; [apply substring_all|exact IH]. Qed.

Lemma length_append (a b : string) :
  String.length (a ++ b) = (String.length a + String.length b)%nat.
Proof.
  induction a as [|c a IH]; [reflexivity|].
  change (S (String.length (a ++ b)) = S (String.length a + String.length b)).
  now rewrite IH.
Qed.

Lemma append_assoc (a b c : string) : (a ++ b) ++ c = a ++ (b ++ c).
Proof.
  induction a as [|x a IH]; [reflexivity|].
  change (String x ((a ++ b) ++ c) = String x (a ++ (b ++ c))). now rewrite IH.
Qed.

Lemma url_matches_suffix (base p : string) : url_matches p (base ++ p) = true.
Proof.
  unfold url_matches. cbv zeta. rewrite length_append.
  replace (String.length base + String.length p - String.length p)%nat
    with (String.length base) by lia.
  rewrite substring_append, match_chars_refl.
  rewrite andb_true_r. apply Nat.leb_le. lia.
Qed.

(** The URL check of the walk accepts every URL that ends in the declared
    path; the pattern of Home, a single slash, therefore accepts the URL of
    any page that ends in a slash, the blog's and the reviews' included. *)
Theorem url_pattern_accepts (base : string) :
  Forall (fun pg => url_matches (path pg) (base ++ path pg) = true)
    (Suite.pagesToTest ++ SuiteWithHelpers.pages)%list
  /\ url_matches "/" (base ++ "/blog/") = true
  /\ url_matches "/" (base ++ "/reviews/") = true.
Proof.
  split; [apply Forall_forall; intros pg _; apply url_matches_suffix|].
  split.
  - replace (base ++ "/blog/") with ((base ++ "/blog") ++ "/")
      by apply append_assoc.
    apply url_matches_suffix.
  - replace (base ++ "/reviews/") with ((base ++ "/reviews") ++ "/")
      by apply append_assoc.
    apply url_matches_suffix.
Qed.

(** *** The layout cases *)

Lemma breakpoint_widths :
  List.map width breakpoints = [320; 375; 414; 768; 1280; 1920]%Z.
Proof. reflexivity. Qed.

Lemma existsb_eqb_In (x : string) (l : list string) :
  existsb (String.eqb x) l = true -> In x l.
Proof.
  intros H. apply existsb_exists in H. destruct H as (y & Hin & Hy).
  apply String.eqb_eq in Hy. now subst.
Qed.

(** In the copy with the layout helpers, a responsive case or a device
    case that passes has loaded the root page at its viewport, has seen
    the logo, and has found the document at most one pixel wider than its
    client area; a device case has seen the site navigation as well. *)
Theorem layout_cases_checked (site : Site) (s s' : Session) :
  (forall bp,
      SuiteWithHelpers.responsive site bp s = (Passed tt, s') ->
      page s' = root site (width bp, height bp)
      /\ (docScrollWidth (page s') <= docClientWidth (page s') + 1)%Z
      /\ In "techquest-logo" (visible (page s')))
  /\ (forall size shot,
      SuiteWithHelpers.device site size shot s = (Passed tt, s') ->
      page s' = root site size
      /\ (docScrollWidth (page s') <= docClientWidth (page s') + 1)%Z
      /\ In "techquest-logo" (visible (page s'))
      /\ In "site-nav" (visible (page s'))).
Proof.
  split.
  - intros bp.
    unfold SuiteWithHelpers.responsive, bind, setViewportSize, goto_root,
      expect_toBeVisible, assertNoHorizontalScroll, screenshot, hasOverflow.
    cbn [page viewport shots log clicked].
    destruct (existsb _ _) eqn:E1; [|discriminate].
    destruct (Z.ltb _ _) eqn:E2; [discriminate|].
    intros H. injection H as <-. cbn [page]. repeat split.
    + apply Z.ltb_ge in E2. exact E2.
    + now apply existsb_eqb_In.
  - intros size shot.
    unfold SuiteWithHelpers.device, assertLayoutSanity, bind, setViewportSize, goto_root,
      expect_toBeVisible, assertNoHorizontalScroll, screenshot, hasOverflow.
    cbn [page viewport shots log clicked].
    destruct (existsb (String.eqb "techquest-logo") _) eqn:E1; [|discriminate].
    destruct (Z.ltb _ _) eqn:E2; [discriminate|].
    destruct (existsb (String.eqb "site-nav") _) eqn:E3; [|discriminate].
    intros H. cbn [page] in H, E2, E3. rewrite E1 in H.
    injection H as <-. cbn [page]. repeat split.
    + apply Z.ltb_ge in E2. exact E2.
    + now apply existsb_eqb_In.
    + now apply existsb_eqb_In.
Qed.

(** C9 at a failing input: a root page 80 pixels wider than the viewport,
    with a visible logo.  At each of the six widths the responsive case of
    [visual-qc.spec.js] passes on it; the case of the sibling copy, which
    calls [assertNoHorizontalScroll], fails. *)
Lemma responsive_overflow_unchecked :
  List.map width breakpoints = [320; 375; 414; 768; 1280; 1920]%Z
  /\ Forall (fun bp =>
               hasOverflow (root overflowing (width bp, height bp)) = true
               /\ fst (Suite.responsive overflowing bp fresh) = Passed tt
               /\ is_passed (fst (SuiteWithHelpers.responsive overflowing bp fresh))
                  = false)
       breakpoints.
Proof.
  split; [reflexivity|].
  repeat constructor; vm_compute; reflexivity.
Qed.

(** *** The error filter *)

Lemma benign_weaker (e : string) :
  SuiteWithHelpers.benign e = true -> Suite.benign e = true.
Proof.
  unfold SuiteWithHelpers.benign, Suite.benign.
  destruct (JS.includes e "favicon"), (JS.includes e "font"), (JS.includes e "404"),
    (JS.includes e "ERR_FILE_NOT_FOUND"); cbn; auto.
Qed.

Lemma critical_weaker (errors : list string) :
  List.filter (fun e => negb (SuiteWithHelpers.benign e)) errors = [] ->
  List.filter (fun e => negb (Suite.benign e)) errors = [].
Proof.
  induction errors as [|e l IH]; [reflexivity|]. cbn [List.filter].
  destruct (SuiteWithHelpers.benign e) eqn:E; cbn [negb]; [|discriminate].
  rewrite (benign_weaker e E). exact IH.
Qed.

(** The error check of [visual-qc.spec.js] ignores whatever the sibling
    copy ignores, and messages that mention 404 besides: on every site
    where the sibling's case passes, its case passes too, and a root page
    whose only error is a 404 passes the one and fails the other. *)
Theorem error_filters_compared (site : Site) (s : Session) :
  (is_passed (fst (SuiteWithHelpers.loads_without_errors site s)) = true ->
   is_passed (fst (Suite.loads_without_errors site s)) = true)
  /\ is_passed (fst (Suite.loads_without_errors missing_image fresh)) = true
  /\ is_passed (fst (SuiteWithHelpers.loads_without_errors missing_image fresh)) = false.
Proof.
  split; [|split; vm_compute; reflexivity].
  unfold SuiteWithHelpers.loads_without_errors, Suite.loads_without_errors, bind,
    goto_root, collected_errors, expect_toHaveLength0, screenshot.
  cbn [page viewport shots log clicked fst snd].
  destruct (List.filter (fun e => negb (SuiteWithHelpers.benign e)) _) eqn:E;
    [|cbn; discriminate].
  rewrite (critical_weaker _ E). reflexivity.
Qed.

Lemma error_filters_compared_witness :
  is_passed (fst (SuiteWithHelpers.loads_without_errors healthy fresh)) = true
  /\ is_passed (fst (Suite.loads_without_errors healthy fresh)) = true.
Proof.
  assert (H : is_passed (fst (SuiteWithHelpers.loads_without_errors healthy fresh)) = true)
    by (vm_compute; reflexivity).
  split; [exact H|]. exact (proj1 (error_filters_compared healthy fresh) H).
Defined.

Lemma layout_cases_checked_witness :
  SuiteWithHelpers.responsive healthy (mkBp "desktop" 1280 720) fresh
  = (Passed tt, snd (SuiteWithHelpers.responsive healthy (mkBp "desktop" 1280 720) fresh))
  /\ (docScrollWidth
        (page (snd (SuiteWithHelpers.responsive healthy (mkBp "desktop" 1280 720) fresh)))
      <= docClientWidth
           (page (snd (SuiteWithHelpers.responsive healthy (mkBp "desktop" 1280 720) fresh)))
         + 1)%Z.
Proof.
  assert (H : SuiteWithHelpers.responsive healthy (mkBp "desktop" 1280 720) fresh
    = (Passed tt, snd (SuiteWithHelpers.responsive healthy (mkBp "desktop" 1280 720) fresh)))
    by (vm_compute; reflexivity).
  split; [exact H|].
  exact (proj1 (proj2 (proj1 (layout_cases_checked healthy fresh _) _ H))).
Defined.
End QCFacts.

(** ** The report writer *)

Section ReportFacts.
Import QC.
Local Open Scope string_scope.

Lemma run_cases_snoc (d : Disk) (cases : list Case) (c : Case) :
  run_cases d (cases ++ [c]) = complete (run_cases d cases) c.
Proof. unfold run_cases. now rewrite fold_left_app. Qed.

Lemma pngs_saved (d : Disk) (files : list string) (f : string) :
  In f files -> JS.endsWith f ".png" = true -> In f (pngs (save files d)).
Proof.
  intros Hin Hpng. unfold pngs, save. destruct files as [|f0 files']; [contradiction|].
  cbn [screenshots]. apply filter_In. split; [|exact Hpng].
  apply list_elem_of_In, elem_of_elements, elem_of_union. right.
  apply elem_of_list_to_set, list_elem_of_In. exact Hin.
Qed.

(** C6, as amended.  The hook rewrites the report file: after any run, the
    file in the directory of the last case holds one entry, that of the
    last case, whose artifacts are the [.png] files then present in the
    screenshot directory (those the case wrote among them); the
    screenshots copied into a report directory are never removed from it. *)
Theorem report_holds_last_case (d : Disk) (cases : list Case) (c : Case) :
  let before := run_cases d cases in
  let after := run_cases d (cases ++ [c]) in
  entries after (qcDir_of c) = [report_of before c]
  /\ (forall f, In f (written c) -> JS.endsWith f ".png" = true ->
        In f (artifacts (report_of before c)))
  /\ (forall dir r, reports before !! dir = Some r ->
        exists r', reports after !! dir = Some r' /\ copied r ⊆ copied r').
Proof.
  cbv zeta. rewrite run_cases_snoc. set (before := run_cases d cases).
  unfold complete, afterEach, entries, qcDir_of, report_of.
  set (dir0 := "../qc/" ++ isoDate (finished c)).
  cbn [reports screenshots copied report_json report_md].
  split; [|split].
  - rewrite lookup_insert_eq. reflexivity.
  - intros f Hin Hpng. cbn [artifacts]. now apply pngs_saved.
  - intros dir r Hr. destruct (decide (dir0 = dir)) as [<-|Hne].
    + rewrite lookup_insert_eq. eexists. split; [reflexivity|]. cbn [copied].
      assert (E : reports (save (written c) before) !! dir0 = Some r).
      { unfold save. destruct (written c); exact Hr. }
      rewrite E. cbn. set_solver.
    + rewrite lookup_insert_ne by exact Hne. exists r. split; [|set_solver].
      unfold save. destruct (written c); exact Hr.
Qed.

(** C6 as stated fails on a run of two cases on one day: the report file
    holds one entry, the second case's, and its artifacts list the
    screenshot of the first case although the second wrote none. *)
Lemma report_counterexample :
  ~ report_keeps_every_case (mkDisk None ∅) two_cases "../qc/2026-02-04"
  /\ List.map test (entries (run_cases (mkDisk None ∅) two_cases) "../qc/2026-02-04")
     = ["homepage loads without errors"]
  /\ List.map artifacts (entries (run_cases (mkDisk None ∅) two_cases) "../qc/2026-02-04")
     = [["logo-visible.png"]].
Proof.
  split; [|split].
  - unfold report_keeps_every_case. vm_compute. discriminate.
  - vm_compute. reflexivity.
  - vm_compute. reflexivity.
Qed.

(** The files of the screenshot directory, as a set. *)
Lemma save_keeps (files : list string) (d : Disk) (f : string) :
  f ∈ default ∅ (screenshots d) -> f ∈ default ∅ (screenshots (save files d)).
Proof.
  intros H. unfold save. destruct files as [|f0 l]; [exact H|].
  change (f ∈ default ∅ (screenshots d) ∪ list_to_set (f0 :: l)). set_solver.
Qed.

Lemma save_adds (files : list string) (d : Disk) (f : string) :
  In f files -> f ∈ default ∅ (screenshots (save files d)).
Proof.
  intros H. unfold save. destruct files as [|f0 l]; [contradiction|].
  change (f ∈ default ∅ (screenshots d) ∪ list_to_set (f0 :: l)).
  apply elem_of_union. right. apply elem_of_list_to_set, list_elem_of_In. exact H.
Qed.

Lemma complete_screenshots (d : Disk) (c : Case) :
  screenshots (complete d c) = screenshots (save (written c) d).
Proof. reflexivity. Qed.

Lemma run_cases_keeps (cases : list Case) :
  forall (d : Disk) (f : string),
    f ∈ default ∅ (screenshots d) -> f ∈ default ∅ (screenshots (run_cases d cases)).
Proof.
  induction cases as [|c cases IH]; intros d f H; [exact H|].
  cbn [run_cases fold_left]. apply IH. rewrite complete_screenshots. now apply save_keeps.
Qed.

Lemma run_cases_adds (cases : list Case) :
  forall (d : Disk) (c : Case) (f : string),
    In c cases -> In f (written c) ->
    f ∈ default ∅ (screenshots (run_cases d cases)).
Proof.
  induction cases as [|c0 cases IH]; intros d c f Hc Hf; [contradiction|].
  cbn [run_cases fold_left]. destruct Hc as [->|Hc].
  - apply run_cases_keeps. rewrite complete_screenshots. now apply save_adds.
  - now apply (IH _ c).
Qed.

Lemma pngs_elem (d : Disk) (f : string) :
  f ∈ default ∅ (screenshots d) -> JS.endsWith f ".png" = true -> In f (pngs d).
Proof.
  intros H Hpng. unfold pngs. destruct (screenshots d) as [files|]; cbn in H.
  - apply filter_In. split; [|exact Hpng]. now apply list_elem_of_In, elem_of_elements.
  - set_solver.
Qed.

(** The artifacts of a report are cumulative: the hook never empties the
    screenshot directory, so the entry of a case lists the [.png]
    screenshots of every case that completed before it in the run, not
    only its own. *)
Theorem artifacts_cumulative (d : Disk) (cases : list Case) (c earlier : Case) (f : string) :
  In earlier cases -> In f (written earlier) -> JS.endsWith f ".png" = true ->
  In f (artifacts (report_of (run_cases d cases) c)).
Proof.
  intros He Hf Hpng. unfold report_of. cbn [artifacts].
  apply pngs_elem; [|exact Hpng].
  apply save_keeps. now apply (run_cases_adds cases d earlier).
Qed.

Lemma artifacts_cumulative_witness :
  In (mkCase (mkInfo "logo is visible in KAI section" passed 812) ["logo-visible.png"]
        "2026-02-04T10:00:00.000Z") two_cases
  /\ In "logo-visible.png" ["logo-visible.png"]
  /\ JS.endsWith "logo-visible.png" ".png" = true
  /\ In "logo-visible.png"
       (artifacts
          (report_of (run_cases (mkDisk None ∅) two_cases)
             (mkCase (mkInfo "iPhone 12 layout works" passed 1500) []
                "2026-02-04T10:00:09.000Z"))).
Proof.
  assert (H1 : In (mkCase (mkInfo "logo is visible in KAI section" passed 812)
                     ["logo-visible.png"] "2026-02-04T10:00:00.000Z") two_cases)
    by (left; reflexivity).
  assert (H2 : In "logo-visible.png" ["logo-visible.png"]) by (left; reflexivity).
  assert (H3 : JS.endsWith "logo-visible.png" ".png" = true) by (vm_compute; reflexivity).
  split; [exact H1|]. split; [exact H2|]. split; [exact H3|].
  exact (artifacts_cumulative (mkDisk None ∅) two_cases _ _ _ H1 H2 H3).
Defined.

(** Running the hook a second time for the same case at the same instant
    changes nothing: the directories are kept, the same files are copied
    over themselves and the two report files are rewritten with the same
    content. *)
Theorem afterEach_idempotent (today now : string) (info : TestInfo) (d : Disk) :
  afterEach today now info (afterEach today now info d) = afterEach today now info d.
Proof.
  unfold afterEach. cbn [reports screenshots]. f_equal.
  rewrite lookup_insert_eq. cbn [default copied report_json report_md].
  rewrite insert_insert_eq. f_equal. f_equal.
  unfold pngs. cbn [screenshots]. apply set_eq. intros x.
  cbn [copied id]. rewrite !elem_of_union. tauto.
Qed.
End ReportFacts.
